(** * Gitness: SHA identities, status-check reports and the reference walk

    A shallow embedding of three Go packages of the repository:
    - [git/sha]: the validated commit identity ([Module Sha]);
    - [internal/api/controller/check]: [ReportInput.Validate] and
      [Controller.Report] ([Module Check]);
    - the gitea adapter of gitrpc: [WalkReferences],
      [walkGiteaReferenceParser], [UpdateRef] and [getRef] ([Module Gitea]).

    Go strings are byte strings: they are modelled by [string] (one [ascii]
    per byte), byte slices by [list byte]. A Go function returning
    [(T, error)] returns a pair whose second component is [option error]
    ([None] is Go's [nil] error). *)

From Stdlib Require Import ZArith Lia String Ascii List Bool DecimalString.
From Stdlib.Strings Require Import Byte.
From stdpp Require Import base option list strings gmap.

Local Open Scope string_scope.
Local Open Scope Z_scope.

(** ** Go error values *)

(** The error values the three packages create or pass on. [Wrapf msg e] is
    [fmt.Errorf(msg + ": %w", e)]; [RunStdError] is the failure of an
    external git command, with its exit code and captured standard error. *)
Inductive error : Type :=
| ErrNotFound
| ErrInvalidArgument
| BadRequest (msg : string)
| Errorf (msg : string)
| Wrapf (msg : string) (cause : error)
| RunStdError (exitCode : Z) (stderr : string)
| ForeignError (tag : string).

(** A call either returns or panics, with a value that is an error here. *)
Inductive outcome (A : Type) : Type :=
| Returned (a : A)
| Panicked (reason : error).
Arguments Returned {A} a.
Arguments Panicked {A} reason.

(** The panic of a call through a nil pointer or a nil function value. *)
Definition nilDereference : error :=
  Errorf "runtime error: invalid memory address or nil pointer dereference".

(** ** Bytes and characters *)

Definition code (c : ascii) : N := N_of_ascii c.

Definition inRange (lo hi : N) (c : ascii) : bool :=
  ((lo <=? code c) && (code c <=? hi))%N.

Definition isDigit (c : ascii) : bool := inRange 48 57 c.
Definition isLowerAlpha (c : ascii) : bool := inRange 97 122 c.
Definition isUpperAlpha (c : ascii) : bool := inRange 65 90 c.

Fixpoint allChars (p : ascii -> bool) (s : string) : bool :=
  match s with
  | EmptyString => true
  | String c rest => p c && allChars p rest
  end.

Definition lengthBetween (lo hi : nat) (s : string) : bool :=
  ((lo <=? String.length s) && (String.length s <=? hi))%nat.

(** [strings.Contains]. *)
Fixpoint Contains (s substr : string) : bool :=
  String.prefix substr s
  || match s with
     | EmptyString => false
     | String _ rest => Contains rest substr
     end.

(** The line feed. *)
Definition newline : string := String (ascii_of_nat 10) EmptyString.

Module Sha.

(** *** Normalisation: [strings.TrimSpace] and [strings.ToLower] *)

(** The six ASCII bytes of Go's [asciiSpace] table. *)
Definition asciiSpace (c : ascii) : bool :=
  inRange 9 13 c || (code c =? 32)%N.

(** UTF-8 encodings of the other code points of [unicode.IsSpace]:
    U+0085 and U+00A0 (two bytes each). *)
Definition space2 (a b : ascii) : bool :=
  (code a =? 194)%N && ((code b =? 133)%N || (code b =? 160)%N).

(** U+1680, U+2000..U+200A, U+2028, U+2029, U+202F, U+205F and U+3000
    (three bytes each). *)
Definition space3 (a b c : ascii) : bool :=
  ((code a =? 225)%N && (code b =? 154)%N && (code c =? 128)%N)
  || ((code a =? 226)%N && (code b =? 128)%N
      && (inRange 128 138 c || (code c =? 168)%N || (code c =? 169)%N
          || (code c =? 175)%N))
  || ((code a =? 226)%N && (code b =? 129)%N && (code c =? 159)%N)
  || ((code a =? 227)%N && (code b =? 128)%N && (code c =? 128)%N).

(** Dropping the leading white space of a byte list; [backwards] tells whether
    the multi-byte sequences are read back to front, which is how the right
    end of the string is trimmed. *)
Fixpoint trimFront (backwards : bool) (l : list ascii) : list ascii :=
  match l with
  | a :: r1 =>
      if asciiSpace a then trimFront backwards r1
      else
        match r1 with
        | b :: r2 =>
            if (if backwards then space2 b a else space2 a b)
            then trimFront backwards r2
            else
              match r2 with
              | c :: r3 =>
                  if (if backwards then space3 c b a else space3 a b c)
                  then trimFront backwards r3
                  else l
              | [] => l
              end
        | [] => l
        end
  | [] => l
  end.

Definition TrimSpace (s : string) : string :=
  let left := trimFront false (list_ascii_of_string s) in
  string_of_list_ascii (rev (trimFront true (rev left))).

(** [strings.ToLower] on the ASCII letters. A letter outside ASCII is
    mapped by Go within its own script (or to [i], [k]), never to one of
    [0-9a-f], so the string accepted by [New] is the same. *)
Definition lowerChar (c : ascii) : ascii :=
  if isUpperAlpha c then ascii_of_N (code c + 32) else c.

Fixpoint ToLower (s : string) : string :=
  match s with
  | EmptyString => EmptyString
  | String c rest => String (lowerChar c) (ToLower rest)
  end.

(** *** The two regular expressions *)

Definition isHexLower (c : ascii) : bool :=
  isDigit c || inRange 97 102 c.

(** [validSHARegex = ^[0-9a-f]{4,64}$]. *)
Definition validSHARegex (s : string) : bool :=
  lengthBetween 4 64 s && allChars isHexLower s.

(** [nilRegex = ^0{4,64}$]. *)
Definition nilRegex (s : string) : bool :=
  lengthBetween 4 64 s && allChars (fun c => (code c =? 48)%N) s.

(** *** The SHA value *)

Record SHA : Type := mkSHA { str : string }.

Definition EmptyTree : string := "4b825dc642cb6eb9a060e54bf8d69288fbee4904".

(** [None = SHA{}]: the empty SHA value. *)
Definition NoneSHA : SHA := mkSHA "".

Definition New (value : string) : SHA * option error :=
  let value := TrimSpace value in
  let value := ToLower value in
  if negb (validSHARegex value)
  then (mkSHA "",
        Some (Errorf ("invalid argument: the provided commit sha '" ++ value
                      ++ "' is of invalid format")))
  else (mkSHA value, None).

(** [Must] panics with the text of the error behind ["invalid SHA: "]. *)
Definition Must (value : string) : outcome SHA :=
  match New value with
  | (_, Some err) => Panicked (Wrapf "invalid SHA" err)
  | (sha, None) => Returned sha
  end.

(** [Nil = Must("0000000000000000000000000000000000000000")]. *)
Definition Nil : SHA :=
  match Must "0000000000000000000000000000000000000000" with
  | Returned sha => sha
  | Panicked _ => mkSHA ""
  end.

Definition IsNil (s : SHA) : bool := nilRegex (str s).

Definition IsEmpty (s : SHA) : bool := bool_decide (str s = "").

Definition Equal (s val : SHA) : bool := bool_decide (str s = str val).

(** *** Serialisation *)

(** The encoders of Go's standard library that the four methods call on the
    wrapped string: [gob] (binary) and [encoding/json] (textual). They are
    libraries outside the repository, so they are an interface here, with the
    one law the methods rely on: what is encoded decodes to the same string
    (for JSON: when the string is ASCII, so that no byte is replaced by
    U+FFFD). *)
Class Encoders : Type := {
  gobEncode : string -> list byte + error;
  gobDecode : list byte -> string + error;
  jsonMarshal : string -> list byte + error;
  jsonUnmarshal : list byte -> string + error;
  gob_decode_encode :
    forall s, exists data, gobEncode s = inl data /\ gobDecode data = inl s;
  json_unmarshal_marshal :
    forall s, allChars (inRange 0 127) s = true ->
      exists data, jsonMarshal s = inl data /\ jsonUnmarshal data = inl s
}.

Section Serialisation.
Context `{Encoders}.

Definition GobEncode (s : SHA) : list byte * option error :=
  match gobEncode (str s) with
  | inr err => ([], Some (Wrapf "failed to pack sha value" err))
  | inl data => (data, None)
  end.

(** The receiver is a pointer: the method returns the value it leaves
    there. *)
Definition GobDecode (s : SHA) (data : list byte) : SHA * option error :=
  match gobDecode data with
  | inr err => (s, Some (Wrapf "failed to unpack sha value" err))
  | inl decoded => (mkSHA decoded, None)
  end.

Definition MarshalJSON (s : SHA) : list byte * option error :=
  match jsonMarshal (str s) with
  | inr err => ([], Some err)
  | inl data => (data, None)
  end.

Definition UnmarshalJSON (s : SHA) (data : list byte) : SHA * option error :=
  match jsonUnmarshal data with
  | inr err => (s, Some err)
  | inl decoded =>
      match New decoded with
      | (_, Some err) => (s, Some err)
      | (sha, None) => (mkSHA (str sha), None)
      end
  end.

End Serialisation.

Definition String (s : SHA) : string := str s.

End Sha.

Module Check.

(** *** The report input *)

(** [enum.CheckStatus] and [enum.CheckPayloadKind] are string types. *)
Definition CheckStatus : Type := string.
Definition CheckPayloadKind : Type := string.

(** Modelled from the spec: the constant [enum.CheckPayloadKindExternal] of
    the package [types/enum], which is not among the sources; the spec names
    the kind "external". *)
Definition CheckPayloadKindExternal : CheckPayloadKind := "external".

(** The two [Sanitize] methods of [types/enum], which is not among the
    sources: each returns the sanitized value and whether the value is
    allowed. *)
Class Sanitizers : Type := {
  CheckStatus_Sanitize : CheckStatus -> CheckStatus * bool;
  CheckPayloadKind_Sanitize : CheckPayloadKind -> CheckPayloadKind * bool
}.

(** [types.CheckPayload]. *)
Record CheckPayload : Type := mkCheckPayload {
  Kind : CheckPayloadKind;
  Version : string;
  Data : list byte
}.

Record ReportInput : Type := mkReportInput {
  CheckUID : string;
  Status : CheckStatus;
  Summary : string;
  Link : string;
  Payload : CheckPayload
}.

Definition regexpCheckUID : string := "^[a-zA-Z_][0-9a-zA-Z-_.$]{0,127}$".

Definition isAlpha (c : ascii) : bool := isLowerAlpha c || isUpperAlpha c.

(** The class [[a-zA-Z_]]. *)
Definition uidHead (c : ascii) : bool := isAlpha c || (code c =? 95)%N.

(** The class [[0-9a-zA-Z-_.$]]: digits, letters, and the four bytes
    [-], [_], [.] and [$]. *)
Definition uidTail (c : ascii) : bool :=
  isDigit c || isAlpha c
  || (code c =? 45)%N || (code c =? 95)%N || (code c =? 46)%N
  || (code c =? 36)%N.

(** [matcherCheckUID.MatchString]. *)
Definition matcherCheckUID (s : string) : bool :=
  match s with
  | EmptyString => false
  | String c rest => uidHead c && lengthBetween 0 127 rest && allChars uidTail rest
  end.

Section Validation.
Context `{Sanitizers}.

(** [Validate] has a pointer receiver: it returns the input as it leaves
    it, beside the error. *)
Definition Validate (in_ : ReportInput) : ReportInput * option error :=
  if bool_decide (CheckUID in_ = "") then
    (in_, Some (BadRequest "Status check UID is missing"))
  else if negb (matcherCheckUID (CheckUID in_)) then
    (in_, Some (BadRequest ("Status check UID must match the regular expression: "
                            ++ regexpCheckUID)))
  else
    let '(_, ok) := CheckStatus_Sanitize (Status in_) in
    if negb ok then
      (in_, Some (BadRequest "Invalid value provided for status check status"))
    else
      let '(payloadKind, ok) := CheckPayloadKind_Sanitize (Kind (Payload in_)) in
      if negb ok then
        (in_, Some (BadRequest "Invalid value provided for the payload type"))
      else
        let in1 :=
          mkReportInput (CheckUID in_) (Status in_) (Summary in_) (Link in_)
            (mkCheckPayload payloadKind (Version (Payload in_)) (Data (Payload in_))) in
        if bool_decide (Kind (Payload in1) = CheckPayloadKindExternal) then
          let in2 :=
            mkReportInput (CheckUID in1) (Status in1) (Summary in1) (Link in1)
              (mkCheckPayload (Kind (Payload in1)) "" [x7b; x7d]) in
          if bool_decide (Link in2 = "") then
            (in2, Some (BadRequest "Link is missing"))
          else (in2, None)
        else (in1, None).

End Validation.

(** *** The report *)

Record Principal : Type := mkPrincipal { PrincipalID : Z; PrincipalUID : string }.
Record Session : Type := mkSession { SessionPrincipal : Principal }.
Record Repository : Type := mkRepository { RepoID : Z; RepoUID : string; GitUID : string }.

Inductive Permission : Type := PermissionCommitCheckReport.

(** [gitrpc.GetCommitParams], with its [ReadParams.RepoUID] flattened. *)
Record GetCommitParams : Type := mkGetCommitParams { ReadRepoUID : string; SHA : string }.

Module types.
(** [types.Check], the persisted record. *)
Record Check (PrincipalInfo : Type) : Type := mkCheck {
  CreatedBy : Z;
  Created : Z;
  Updated : Z;
  RepoID : Z;
  CommitSHA : string;
  UID : string;
  Status : CheckStatus;
  Summary : string;
  Link : string;
  Payload : CheckPayload;
  Metadata : list byte;
  ReportedBy : PrincipalInfo
}.
Arguments mkCheck {PrincipalInfo}.
End types.

(** What [Report] calls outside this file: the controller's access check,
    the gitrpc client, the check store, the clock, and three pure helpers.
    Each stateful call takes the world and returns it. [Upsert] receives a
    pointer to the record: it returns the record as the store leaves it. *)
Class Services : Type := {
  World : Type;
  PrincipalInfo : Type;
  getRepoCheckAccess :
    Session -> string -> Permission -> World -> (Repository + error) * World;
  ValidateCommitSHA : string -> bool;
  GetCommit : GetCommitParams -> World -> option error * World;
  UnixMilliNow : World -> Z;
  MarshalMetadata : gmap string string -> list byte;
  ToPrincipalInfo : Principal -> PrincipalInfo;
  Upsert : types.Check PrincipalInfo -> World ->
           (types.Check PrincipalInfo * option error) * World
}.

(** The calls that leave the controller, in the order they are made. *)
Inductive Call : Type :=
| CallRepoCheckAccess (repoRef : string)
| CallGetCommit (params : GetCommitParams)
| CallUpsert (uid : string).

Section Reporting.
Context `{Sanitizers} `{Services}.

Record State : Type := mkState { world : World; calls : list Call }.

(** State and error threading of the controller. *)
Definition M (A : Type) : Type := State -> (A + error) * State.

Definition ret {A : Type} (a : A) : M A := fun st => (inl a, st).

Definition fail {A : Type} (e : error) : M A := fun st => (inr e, st).

Definition bind {A B : Type} (m : M A) (k : A -> M B) : M B :=
  fun st =>
    match m st with
    | (inl a, st') => k a st'
    | (inr e, st') => (inr e, st')
    end.

(** An outside call: it is logged, and it runs on the world. *)
Definition outside {A : Type} (c : Call) (f : World -> (A + error) * World) : M A :=
  fun st =>
    let '(r, w) := f (world st) in
    (r, mkState w (calls st ++ [c])%list).

(** [fmt.Errorf(msg + ": %w", err)] on the error of [m]. *)
Definition wrapping {A : Type} (msg : string) (m : M A) : M A :=
  fun st =>
    match m st with
    | (inr e, st') => (inr (Wrapf msg e), st')
    | r => r
    end.

Definition now : M Z := fun st => (inl (UnixMilliNow (world st)), st).

Local Notation "x <- m ;; k" := (bind m (fun x => k))
  (at level 100, m at next level, right associativity).

Definition Report (session : Session) (repoRef commitSHA : string)
    (in_ : ReportInput) (metadata : gmap string string)
    : M (types.Check PrincipalInfo) :=
  repo <- wrapping "failed to acquire access access to repo"
            (outside (CallRepoCheckAccess repoRef)
               (getRepoCheckAccess session repoRef PermissionCommitCheckReport)) ;;
  in_ <- (match Validate in_ with
          | (_, Some errValidate) => fail errValidate
          | (validated, None) => ret validated
          end) ;;
  _ <- (if negb (ValidateCommitSHA commitSHA)
        then fail (BadRequest "invalid commit SHA provided")
        else ret tt) ;;
  let params := mkGetCommitParams (GitUID repo) commitSHA in
  _ <- wrapping ("failed to commit sha=" ++ commitSHA)
         (outside (CallGetCommit params)
            (fun w => match GetCommit params w with
                      | (Some err, w') => (inr err, w')
                      | (None, w') => (inl tt, w')
                      end)) ;;
  now_ <- now ;;
  let metadataJson := MarshalMetadata metadata in
  let statusCheckReport :=
    types.mkCheck (PrincipalID (SessionPrincipal session)) now_ now_
      (RepoID repo) commitSHA (CheckUID in_) (Status in_) (Summary in_)
      (Link in_) (Payload in_) metadataJson
      (ToPrincipalInfo (SessionPrincipal session)) in
  wrapping ("failed to upsert status check result for repo=" ++ RepoUID repo)
    (outside (CallUpsert (CheckUID in_))
       (fun w => match Upsert statusCheckReport w with
                 | ((_, Some err), w') => (inr err, w')
                 | ((stored, None), w') => (inl stored, w')
                 end)).

End Reporting.

End Check.

Module Gitea.

(** *** Reference names *)

(** Modelled from the spec: the reference-type enumeration of
    [gitrpc/enum], which is not among the sources. The spec lists
    raw, branch, tag, pullreq-head and pullreq-merge; the Go type is an
    integer type, and [RefTypeOther] stands for each of its other values. *)
Inductive RefType : Type :=
| RefTypeRaw
| RefTypeBranch
| RefTypeTag
| RefTypePullReqHead
| RefTypePullReqMerge
| RefTypeOther (n : Z).

(** The two prefixes of gitea's git module. *)
Definition BranchPrefix : string := "refs/heads/".
Definition TagPrefix : string := "refs/tags/".

Definition refPullReqPrefix : string := "refs/pullreq/".
Definition refPullReqHeadSuffix : string := "/head".
Definition refPullReqMergeSuffix : string := "/merge".

Definition getRef (refName : string) (refType : RefType) : string * option error :=
  match refType with
  | RefTypeRaw => (refName, None)
  | RefTypeBranch => (BranchPrefix ++ refName, None)
  | RefTypeTag => (TagPrefix ++ refName, None)
  | RefTypePullReqHead => (refPullReqPrefix ++ refName ++ refPullReqHeadSuffix, None)
  | RefTypePullReqMerge => (refPullReqPrefix ++ refName ++ refPullReqMergeSuffix, None)
  | RefTypeOther _ => ("", Some ErrInvalidArgument)
  end.

(** *** The walk: types *)

(** Modelled from the spec: the instruction an instructor returns, of the
    package [gitrpc/internal/types], which is not among the sources. *)
Inductive WalkInstruction : Type :=
| WalkInstructionHandle
| WalkInstructionSkip
| WalkInstructionStop.

Global Instance WalkInstruction_eq_dec : EqDecision WalkInstruction.
Proof. solve_decision. Defined.

(** Modelled from the spec: the sort order of the walk options. *)
Inductive SortOrder : Type := SortOrderDefault | SortOrderAsc | SortOrderDesc.

(** [types.GitReferenceField] is a string type; a record of the output of
    for-each-ref ([map[string]string]) and an entry handed to the callbacks
    ([types.WalkReferencesEntry]) are maps from field names to values. *)
Definition GitReferenceField : Type := string.
Definition RawRef : Type := gmap string string.
Definition WalkReferencesEntry : Type := gmap string string.

(** The callbacks are closures of the caller: they run on the caller's
    state [S] and return it. *)
Definition WalkReferencesInstructor (S : Type) : Type :=
  WalkReferencesEntry -> S -> (WalkInstruction * option error) * S.

Definition WalkReferencesHandler (S : Type) : Type :=
  WalkReferencesEntry -> S -> option error * S.

(** [Patterns] is [None] for Go's nil slice. [MaxWalkDistance] is an
    [int32]. *)
Record WalkReferencesOptions (S : Type) : Type := mkOptions {
  Patterns : option (list string);
  Fields : list GitReferenceField;
  Instructor : option (WalkReferencesInstructor S);
  Sort : GitReferenceField;
  Order : SortOrder;
  MaxWalkDistance : Z
}.
Arguments mkOptions {S}.
Arguments Patterns {S}.
Arguments Fields {S}.
Arguments Instructor {S}.
Arguments Sort {S}.
Arguments Order {S}.
Arguments MaxWalkDistance {S}.

Definition MaxInt32 : Z := 2147483647.

(** Go's [int32] arithmetic wraps around. *)
Definition int32 (z : Z) : Z := (z + 2 ^ 31) mod 2 ^ 32 - 2 ^ 31.

(** *** The parser of for-each-ref output *)

(** gitea's [foreachref.Parser] over the read end of the pipe: the records
    still to come, the parse error that ends the stream if a malformed
    record follows them ([ending]), and the error the parser has met so far
    ([met], which [Err] returns). [Err] reports parse errors only: when the
    git command fails, the pipe is closed with its error, the scanner of the
    parser stops as at the end of the output, and [Err] stays nil. So a
    stream cut short by the failure of the command is a parser whose
    [ending] is [None]. *)
Record Parser : Type := mkParser {
  pending : list RawRef;
  ending : option error;
  met : option error
}.

(** [Next] returns [None] (Go's nil) at the end of the output or on an
    error. *)
Definition Next (p : Parser) : option RawRef * Parser :=
  match pending p with
  | rawRef :: rest => (Some rawRef, mkParser rest (ending p) (met p))
  | [] => (None, mkParser [] (ending p) (ending p))
  end.

Definition Err (p : Parser) : option error := met p.

(** *** What the adapter calls outside this file *)

(** The failure of [RunStdString]: the exit code of the command, if it
    exited, and its standard error. *)
Record RunStdErr : Type := mkRunStdErr { exitCode : option Z; stderrText : string }.

Definition IsExitCode (e : RunStdErr) (c : Z) : bool :=
  match exitCode e with
  | Some c' => bool_decide (c' = c)
  | None => false
  end.

Definition asError (e : RunStdErr) : error :=
  RunStdError (default (-1) (exitCode e)) (stderrText e).

(** The helpers of the package that are not among the sources, and the
    format flag of gitea's [foreachref.Format]. *)
Class Helpers : Type := {
  GitReferenceFieldRefName : GitReferenceField;
  GitReferenceFieldObjectName : GitReferenceField;
  mapGiteaRawRef : RawRef -> WalkReferencesEntry * option error;
  mapToGiteaReferenceSortingArgument : GitReferenceField -> SortOrder -> string;
  processGiteaErrorf : error -> string -> error;
  formatFlag : list string -> string
}.

(** The git commands, which run on the repositories on disk ([Repos],
    addressed by their path). [refsOf repos dir] are the references of the
    repository at [dir] with the object ids they hold; [RunForEachRef] is
    the parser over the pipe that [git for-each-ref] writes into;
    [RunStdString] runs a git command and returns its standard output, its
    standard error and its failure, if it fails. Nothing is assumed of what
    a command does: a statement that needs the behaviour of a command
    names it as a condition on the run in question. *)
Class Git : Type := {
  Repos : Type;
  refsOf : Repos -> string -> gmap string string;
  RunForEachRef : string -> list string -> list string -> Repos -> Parser;
  RunStdString :
    string -> list string -> Repos -> (string * string * option RunStdErr) * Repos
}.

(** *** The walk *)

Definition DefaultInstructor {S : Type} : WalkReferencesInstructor S :=
  fun _ st => ((WalkInstructionHandle, None), st).

(** The calls of the two callbacks, in the order they are made. *)
Inductive WalkEvent : Type :=
| InstructorCalled (ref : WalkReferencesEntry)
| HandlerCalled (ref : WalkReferencesEntry).

(** What a walk leaves: the calls it made, the caller's state, the parser,
    and what it returned (or that it panicked). *)
Record Walked (S : Type) : Type := mkWalked {
  events : list WalkEvent;
  callerState : S;
  parserLeft : Parser;
  returned : outcome (option error)
}.
Arguments mkWalked {S}.
Arguments events {S}.
Arguments callerState {S}.
Arguments parserLeft {S}.
Arguments returned {S}.

Section Walk.
Context `{Helpers} `{Git} {S : Type}.

(** The end of [walkGiteaReferenceParser], after the loop. *)
Definition afterLoop (trace : list WalkEvent) (st : S) (parser : Parser) : Walked S :=
  match Err parser with
  | Some err =>
      mkWalked trace st parser
        (Returned (Some (processGiteaErrorf err "failed to parse reference walk output")))
  | None => mkWalked trace st parser (Returned None)
  end.

(** The loop of [walkGiteaReferenceParser], from counter [i], by recursion
    on the records the parser still has: [parser.Next()] pops the first of
    them, and an iteration that does not end the loop goes on with the rest.
    [ending] and [met] are the other two fields of the parser. *)
Fixpoint walkLoop (handler : WalkReferencesHandler S) (opts : WalkReferencesOptions S)
    (ending met : option error) (i : Z) (records : list RawRef)
    (trace : list WalkEvent) (st : S) : Walked S :=
  if negb (i <? MaxWalkDistance opts) then
    afterLoop trace st (mkParser records ending met)
  else
    match records with
    | [] => afterLoop trace st (snd (Next (mkParser [] ending met)))
    | rawRef :: rest =>
        let parser := mkParser rest ending met in
        match mapGiteaRawRef rawRef with
        | (_, Some err) => mkWalked trace st parser (Returned (Some err))
        | (ref, None) =>
            match Instructor opts with
            | None => mkWalked trace st parser (Panicked nilDereference)
            | Some instructor =>
                let '((instruction, err), st1) := instructor ref st in
                let trace1 := (trace ++ [InstructorCalled ref])%list in
                match err with
                | Some err =>
                    mkWalked trace1 st1 parser
                      (Returned (Some (Wrapf "error getting instruction" err)))
                | None =>
                    if bool_decide (instruction = WalkInstructionSkip) then
                      walkLoop handler opts ending met (int32 (i + 1)) rest trace1 st1
                    else if bool_decide (instruction = WalkInstructionStop) then
                      afterLoop trace1 st1 parser
                    else
                      let '(err, st2) := handler ref st1 in
                      let trace2 := (trace1 ++ [HandlerCalled ref])%list in
                      match err with
                      | Some err =>
                          mkWalked trace2 st2 parser
                            (Returned (Some (Wrapf "error handling reference" err)))
                      | None =>
                          walkLoop handler opts ending met (int32 (i + 1)) rest trace2 st2
                      end
                end
            end
        end
    end.

Definition walkGiteaReferenceParser (parser : Parser)
    (handler : WalkReferencesHandler S) (opts : WalkReferencesOptions S)
    (st : S) : Walked S :=
  walkLoop handler opts (ending parser) (met parser) 0 (pending parser) [] st.

(** *** WalkReferences *)

(** The options are passed by pointer: they live in a heap, at an
    address. *)
Definition backfill (opts : WalkReferencesOptions S) : WalkReferencesOptions S :=
  let opts :=
    match Instructor opts with
    | None => mkOptions (Patterns opts) (Fields opts) (Some DefaultInstructor)
                (Sort opts) (Order opts) (MaxWalkDistance opts)
    | Some _ => opts
    end in
  let opts :=
    if bool_decide (length (Fields opts) = 0%nat) then
      mkOptions (Patterns opts) [GitReferenceFieldRefName; GitReferenceFieldObjectName]
        (Instructor opts) (Sort opts) (Order opts) (MaxWalkDistance opts)
    else opts in
  let opts :=
    if MaxWalkDistance opts <=? 0 then
      mkOptions (Patterns opts) (Fields opts) (Instructor opts) (Sort opts)
        (Order opts) MaxInt32
    else opts in
  let opts :=
    match Patterns opts with
    | None => mkOptions (Some []) (Fields opts) (Instructor opts) (Sort opts)
                (Order opts) (MaxWalkDistance opts)
    | Some _ => opts
    end in
  if bool_decide (Sort opts = "") then
    mkOptions (Patterns opts) (Fields opts) (Instructor opts)
      GitReferenceFieldRefName (Order opts) (MaxWalkDistance opts)
  else opts.

(** [fmt.Sprint] of an integer. *)
Definition Sprint (z : Z) : string := NilZero.string_of_int (Z.to_int z).

Definition forEachRefArgs (opts : WalkReferencesOptions S) : list string :=
  let sortArg := mapToGiteaReferenceSortingArgument (Sort opts) (Order opts) in
  (["for-each-ref"; "--format"; formatFlag (Fields opts); "--sort"; sortArg;
    "--count"; Sprint (MaxWalkDistance opts); "--ignore-case"]
   ++ default [] (Patterns opts))%list.

(** [WalkReferences] on the heap of options [heap], with [opts] the address
    passed: it returns the heap as the call leaves it, and the walk. *)
Definition WalkReferences (repoPath : string) (handler : WalkReferencesHandler S)
    (opts : nat) (heap : gmap nat (WalkReferencesOptions S)) (repos : Repos) (st : S)
    : gmap nat (WalkReferencesOptions S) * Walked S :=
  match heap !! opts with
  | None => (heap, mkWalked [] st (mkParser [] None None) (Panicked nilDereference))
  | Some o =>
      let o := backfill o in
      let heap := <[opts := o]> heap in
      let parser := RunForEachRef repoPath (Fields o) (forEachRefArgs o) repos in
      (heap, walkGiteaReferenceParser parser handler o st)
  end.

End Walk.

(** *** UpdateRef *)

Section Mutation.
Context `{Git}.

Definition updateRefArgs (refName newValue oldValue : string) : list string :=
  let args := ["update-ref"; refName; newValue] in
  if negb (bool_decide (oldValue = "")) then (args ++ [oldValue])%list else args.

Definition UpdateRef (repoPath refName : string) (refType : RefType)
    (newValue oldValue : string) (repos : Repos) : option error * Repos :=
  match getRef refName refType with
  | (_, Some errRef) => (Some errRef, repos)
  | (refName, None) =>
      let args := updateRefArgs refName newValue oldValue in
      match RunStdString repoPath args repos with
      | ((_, Some err), repos') =>
          if IsExitCode err 128 then (Some ErrNotFound, repos')
          else (Some (asError err), repos')
      | ((_, None), repos') => (None, repos')
      end
  end.

(** What [git update-ref <ref> <new> <old>] does as a compare-and-swap, as a
    condition on one run: if the run succeeds, the reference held [old] and
    holds [new] afterwards; if the reference does not hold [old], the run
    fails with exit code 128 and changes no reference. git meets it when
    [new] and [old] are object ids as git prints them (in full and in lower
    case), not all zeroes. It does not meet it for every string: an old
    value of all zeroes stands for a reference that must not exist, a new
    value of all zeroes deletes the reference, and an abbreviated id, an id
    in upper case or the name of a revision is resolved to the id of its
    object before it is compared or stored. *)
Definition comparesAndSwaps (dir ref new old : string) (repos : Repos) : Prop :=
  match RunStdString dir ["update-ref"; ref; new; old] repos with
  | ((_, None), repos') =>
      refsOf repos dir !! ref = Some old /\ refsOf repos' dir !! ref = Some new
  | ((_, Some e), repos') =>
      refsOf repos dir !! ref <> Some old ->
      exitCode e = Some 128 /\ refsOf repos' dir = refsOf repos dir
  end.


(** [GetRef] returns the value of the reference that [git show-ref] prints,
    trimmed. *)
Definition GetRef (repoPath refName : string) (refType : RefType) (repos : Repos)
    : (string * option error) * Repos :=
  match getRef refName refType with
  | (_, Some errRef) => (("", Some errRef), repos)
  | (refName, None) =>
      match RunStdString repoPath ["show-ref"; "--verify"; "-s"; "--"; refName] repos with
      | ((_, _, Some err), repos') =>
          if IsExitCode err 128 && Contains (stderrText err) "not a valid ref"
          then (("", Some ErrNotFound), repos')
          else (("", Some (asError err)), repos')
      | ((stdout, _, None), repos') => ((Sha.TrimSpace stdout, None), repos')
      end
  end.

End Mutation.

End Gitea.

(** * Stand-ins for what lies outside the sources

    Small instances of the interfaces above, to run the functions on. *)

Module StandIn.

(** A small stand-in for the two encoders, to run the methods on: the gob
    stand-in puts the bytes of the string behind a header of two bytes, the
    JSON stand-in puts them between double quotes. *)
Definition gobBytes (s : string) : list byte :=
  x0c :: x00 :: list_byte_of_string s.

Definition frameGob (s : string) : list byte + error := inl (gobBytes s).

Definition unframeGob (data : list byte) : string + error :=
  match data with
  | x0c :: x00 :: body => inl (string_of_list_byte body)
  | _ => inr (ForeignError "gob: unexpected data")
  end.

Definition quoteJSON (s : string) : list byte + error :=
  inl (x22 :: (list_byte_of_string s ++ [x22])%list).

Definition unquoteJSON (data : list byte) : string + error :=
  match data with
  | x22 :: rest =>
      match rev rest with
      | x22 :: body => inl (string_of_list_byte (rev body))
      | _ => inr (ForeignError "json: cannot unmarshal into a string")
      end
  | _ => inr (ForeignError "json: cannot unmarshal into a string")
  end.

Lemma unframeGob_frameGob (s : string) :
  exists data, frameGob s = inl data /\ unframeGob data = inl s.
Proof.
  eexists; split; [reflexivity|].
  unfold unframeGob, gobBytes. by rewrite string_of_list_byte_of_string.
Qed.

Lemma unquoteJSON_quoteJSON (s : string) :
  allChars (inRange 0 127) s = true ->
  exists data, quoteJSON s = inl data /\ unquoteJSON data = inl s.
Proof.
  intros _. eexists; split; [reflexivity|].
  unfold unquoteJSON. rewrite rev_app_distr. simpl rev at 1. simpl app.
  cbv iota beta.
  by rewrite rev_involutive, string_of_list_byte_of_string.
Qed.

Definition encoders : Sha.Encoders :=
  {| Sha.gobEncode := frameGob; Sha.gobDecode := unframeGob;
     Sha.jsonMarshal := quoteJSON; Sha.jsonUnmarshal := unquoteJSON;
     Sha.gob_decode_encode := unframeGob_frameGob;
     Sha.json_unmarshal_marshal := unquoteJSON_quoteJSON |}.

(** Sanitizing a status or a payload kind: the value in lower case, when
    that is one of the allowed values. *)
Definition sanitizeAmong (allowed : list string) (value : string) : string * bool :=
  let lowered := Sha.ToLower value in
  if bool_decide (lowered ∈ allowed) then (lowered, true) else ("", false).

Definition sanitizers : Check.Sanitizers :=
  {| Check.CheckStatus_Sanitize :=
       sanitizeAmong ["pending"; "running"; "success"; "failure"; "error"];
     Check.CheckPayloadKind_Sanitize := sanitizeAmong ["external"; "markdown"] |}.

(** A world of one repository: whether access to it is granted, the commits
    it has, the checks stored, and the clock. *)
Record World : Type := mkWorld {
  granted : bool;
  commits : list string;
  stored : list (Check.types.Check Check.Principal);
  clock : Z
}.

Definition theRepository : Check.Repository :=
  Check.mkRepository 7 "space/repo" "git-uid-7".

Definition services : Check.Services :=
  {| Check.World := World;
     Check.PrincipalInfo := Check.Principal;
     Check.getRepoCheckAccess := fun _ _ _ w =>
       if granted w then (inl theRepository, w)
       else (inr (ForeignError "forbidden"), w);
     Check.ValidateCommitSHA := fun sha =>
       lengthBetween 40 40 sha && allChars Sha.isHexLower sha;
     Check.GetCommit := fun params w =>
       if bool_decide (Check.SHA params ∈ commits w) then (None, w)
       else (Some ErrNotFound, w);
     Check.UnixMilliNow := clock;
     Check.MarshalMetadata := fun _ => [x7b; x7d];
     Check.ToPrincipalInfo := fun p => p;
     Check.Upsert := fun c w =>
       ((c, None), mkWorld (granted w) (commits w) (c :: stored w) (clock w)) |}.

(** The repositories on disk: for each path, the references and their
    values. *)
Abbreviation Repos := (gmap string (gmap string string)).

Definition refsOf (repos : Repos) (dir : string) : gmap string string :=
  default ∅ (repos !! dir).

Definition setRef (dir ref new : string) (repos : Repos) : Repos :=
  <[dir := <[ref := new]> (refsOf repos dir)]> repos.

Definition dropRef (dir ref : string) (repos : Repos) : Repos :=
  <[dir := delete ref (refsOf repos dir)]> repos.

(** An object id spelled in full, and the id of all zeroes. *)
Definition fullId (s : string) : bool :=
  lengthBetween 40 40 s && allChars Sha.isHexLower s.

Definition zeroId : string := "0000000000000000000000000000000000000000".

Definition fatal (msg : string) : Gitea.RunStdErr :=
  Gitea.mkRunStdErr (Some 128) ("fatal: " ++ msg).

(** [git update-ref <ref> <new> [<old>]] on these repositories. A reference
    that starts with a dash is read as an option, which is a usage error
    (exit code 129). Every value has to be an object id spelled in full
    (abbreviated ids and names of revisions, which git resolves, are not
    known here, and every full id counts as an object of the repository);
    an old value of all zeroes stands for a reference that does not exist;
    a new value of all zeroes deletes the reference. Every refusal is fatal
    (exit code 128) and changes nothing. *)
Definition updateRef (dir ref new : string) (old : option string) (repos : Repos)
    : (string * string * option Gitea.RunStdErr) * Repos :=
  let current := refsOf repos dir !! ref in
  let expected (o : string) := if bool_decide (o = zeroId) then None else Some o in
  if String.prefix "-" ref then
    (("", "", Some (Gitea.mkRunStdErr (Some 129) "error: unknown option")), repos)
  else if negb (fullId new) then
    (("", "", Some (fatal (new ++ ": not a valid SHA1"))), repos)
  else if negb (from_option fullId true old) then
    (("", "", Some (fatal (default "" old ++ ": not a valid old SHA1"))), repos)
  else if negb (from_option (fun o => bool_decide (current = expected o)) true old) then
    (("", "", Some (fatal ("cannot lock ref '" ++ ref ++ "'"))), repos)
  else if bool_decide (new = zeroId) then (("", "", None), dropRef dir ref repos)
  else (("", "", None), setRef dir ref new repos).

(** git on these repositories: only [update-ref] is known. *)
Definition RunStdString (dir : string) (args : list string) (repos : Repos)
    : (string * string * option Gitea.RunStdErr) * Repos :=
  match args with
  | [cmd; ref; new] =>
      if bool_decide (cmd = "update-ref") then updateRef dir ref new None repos
      else (("", "", Some (Gitea.mkRunStdErr (Some 1) "unknown command")), repos)
  | [cmd; ref; new; old] =>
      if bool_decide (cmd = "update-ref") then updateRef dir ref new (Some old) repos
      else (("", "", Some (Gitea.mkRunStdErr (Some 1) "unknown command")), repos)
  | _ => (("", "", Some (Gitea.mkRunStdErr (Some 1) "unknown command")), repos)
  end.

(** The records of for-each-ref for a list of references, in the order of
    the list. *)
Definition recordOf (ref : string * string) : Gitea.RawRef :=
  {[ "refname" := ref.1; "objectname" := ref.2 ]}.

Definition RunForEachRef (dir : string) (fields args : list string) (repos : Repos)
    : Gitea.Parser :=
  Gitea.mkParser (recordOf <$> map_to_list (refsOf repos dir)) None None.

Definition helpers : Gitea.Helpers :=
  {| Gitea.GitReferenceFieldRefName := "refname";
     Gitea.GitReferenceFieldObjectName := "objectname";
     Gitea.mapGiteaRawRef := fun rawRef => (rawRef, None);
     Gitea.mapToGiteaReferenceSortingArgument := fun field order =>
       match order with
       | Gitea.SortOrderDesc => "-" ++ field
       | _ => field
       end;
     Gitea.processGiteaErrorf := fun err msg => Wrapf msg err;
     Gitea.formatFlag := String.concat "%00" |}.

Definition git : Gitea.Git :=
  {| Gitea.Repos := Repos;
     Gitea.refsOf := refsOf;
     Gitea.RunForEachRef := RunForEachRef;
     Gitea.RunStdString := RunStdString |}.

(** git on these repositories, with [show-ref --verify -s] beside
    [update-ref]: it prints the value of the reference and a line feed, or
    fails with exit code 128 when there is no such reference. *)
Definition RunStdStringToo (dir : string) (args : list string) (repos : Repos)
    : (string * string * option Gitea.RunStdErr) * Repos :=
  match args with
  | [cmd; _; _; _; ref] =>
      if bool_decide (cmd = "show-ref") then
        match refsOf repos dir !! ref with
        | Some value => ((value ++ newline, "", None), repos)
        | None =>
            (("", "", Some (Gitea.mkRunStdErr (Some 128)
                              ("fatal: '" ++ ref ++ "' - not a valid ref"))), repos)
        end
      else (("", "", Some (Gitea.mkRunStdErr (Some 1) "unknown command")), repos)
  | _ => RunStdString dir args repos
  end.

Definition gitToo : Gitea.Git :=
  {| Gitea.Repos := Repos;
     Gitea.refsOf := refsOf;
     Gitea.RunForEachRef := RunForEachRef;
     Gitea.RunStdString := RunStdStringToo |}.

End StandIn.

(** * Properties *)

Module ShaSpec.
Import Sha.

(** ** Normalisation leaves a well-formed SHA string as it is *)

Lemma isHexLower_code (c : ascii) :
  isHexLower c = true ->
  (48 <= code c <= 57 \/ 97 <= code c <= 102)%N.
Proof.
  unfold isHexLower, isDigit, inRange. intros Hc.
  apply orb_true_iff in Hc as [Hc|Hc]; apply andb_true_iff in Hc as [Hlo Hhi];
    apply N.leb_le in Hlo, Hhi; lia.
Qed.

Lemma lowerChar_hex (c : ascii) : isHexLower c = true -> lowerChar c = c.
Proof.
  intros Hc%isHexLower_code. unfold lowerChar, isUpperAlpha, inRange.
  destruct (N.leb_spec 65 (code c)), (N.leb_spec (code c) 90); simpl; trivial; lia.
Qed.

Lemma ToLower_hex (s : string) : allChars isHexLower s = true -> ToLower s = s.
Proof.
  induction s as [|c s IH]; simpl; [reflexivity|].
  intros [Hc Hs]%andb_true_iff. by rewrite lowerChar_hex, IH.
Qed.

Lemma asciiSpace_hex (c : ascii) : isHexLower c = true -> asciiSpace c = false.
Proof.
  intros Hc%isHexLower_code. unfold asciiSpace, inRange.
  destruct (N.leb_spec 9 (code c)), (N.leb_spec (code c) 13),
    (N.eqb_spec (code c) 32); simpl; trivial; lia.
Qed.

(** A byte below 128 that is no ASCII space stops the trimming, from
    either end. *)
Lemma trimFront_stops (backwards : bool) (a : ascii) (l : list ascii) :
  asciiSpace a = false -> (code a < 128)%N ->
  trimFront backwards (a :: l) = a :: l.
Proof.
  intros Hsp Hlt. simpl. rewrite Hsp.
  assert (Hne : forall n, (128 <= n)%N -> (code a =? n)%N = false)
    by (intros n Hn; apply N.eqb_neq; lia).
  assert (Hrange : inRange 128 138 a = false).
  { unfold inRange. destruct (N.leb_spec 128 (code a)); [lia|reflexivity]. }
  destruct l as [|b [|c r]]; trivial; destruct backwards;
    unfold space2, space3;
    rewrite ?Hrange, ?Hne by lia; simpl;
    rewrite ?andb_false_r; simpl; trivial.
Qed.

Lemma allChars_Forall (p : ascii -> bool) (s : string) :
  allChars p s = true <-> Forall (fun c => p c = true) (list_ascii_of_string s).
Proof.
  induction s as [|c s IH]; simpl.
  - split; [constructor|reflexivity].
  - rewrite andb_true_iff, IH, Forall_cons. reflexivity.
Qed.

Lemma trimFront_hex (backwards : bool) (l : list ascii) :
  Forall (fun c => isHexLower c = true) l -> trimFront backwards l = l.
Proof.
  destruct 1 as [|a l Ha _]; [reflexivity|].
  apply trimFront_stops; [by apply asciiSpace_hex|].
  apply isHexLower_code in Ha. lia.
Qed.

Lemma TrimSpace_hex (s : string) : allChars isHexLower s = true -> TrimSpace s = s.
Proof.
  intros Hs%allChars_Forall. unfold TrimSpace.
  rewrite (trimFront_hex false) by assumption.
  rewrite (trimFront_hex true) by (by apply Forall_rev).
  by rewrite rev_involutive, string_of_list_ascii_of_string.
Qed.

Lemma New_valid (s : string) :
  validSHARegex s = true -> New s = (mkSHA s, None).
Proof.
  intros Hv. unfold New.
  pose proof Hv as [_ Hhex]%andb_true_iff.
  by rewrite TrimSpace_hex, ToLower_hex, Hv.
Qed.

(** What [New] returns is well formed, or comes with an error. *)
Lemma New_returns (value : string) :
  (exists e, New value = (mkSHA "", Some e)
             /\ validSHARegex (ToLower (TrimSpace value)) = false)
  \/ (New value = (mkSHA (ToLower (TrimSpace value)), None)
      /\ validSHARegex (ToLower (TrimSpace value)) = true).
Proof.
  unfold New. destruct (validSHARegex _); simpl; eauto.
Qed.

(** ** The empty value and the nil value *)

(** C9, as the spec states it, fails: [New] on the empty string returns an
    error, because the empty string does not match [validSHARegex]. *)
Lemma New_empty_string_fails :
  snd (New "")
  = Some (Errorf "invalid argument: the provided commit sha '' is of invalid format").
Proof. reflexivity. Qed.

(** C9, amended: constructing a SHA from the empty string fails ([New]
    returns an error, [Must] panics), and the value [New] returns beside the
    error is the empty value [None] ([SHA{}]); that value has the empty
    string as its [String()] and is [IsEmpty]; it is distinct from [Nil],
    which is not empty and is all zeroes. *)
Theorem empty_value_is_not_constructed_and_differs_from_Nil :
  (exists e, New "" = (NoneSHA, Some e))
  /\ (exists e, Must "" = Panicked e)
  /\ String NoneSHA = "" /\ IsEmpty NoneSHA = true /\ IsNil NoneSHA = false
  /\ IsEmpty Nil = false /\ IsNil Nil = true
  /\ Equal NoneSHA Nil = false.
Proof.
  repeat split; try reflexivity; eexists; reflexivity.
Qed.

Example New_four_zeroes_IsNil : IsNil (fst (New "0000")) = true.
Proof. reflexivity. Qed.

Example New_normalises : New " 4B825DC6 " = (mkSHA "4b825dc6", None).
Proof. reflexivity. Qed.

(** ** Serialisation *)

Section Serialisation.
Context `{Encoders}.

(** The gob encoding of every SHA value decodes to that value. *)
Lemma GobDecode_GobEncode (s receiver : SHA) :
  exists data, GobEncode s = (data, None)
               /\ GobDecode receiver data = (s, None).
Proof.
  destruct (gob_decode_encode (str s)) as (data & Henc & Hdec).
  exists data. unfold GobEncode, GobDecode. rewrite Henc, Hdec.
  by destruct s.
Qed.

(** The JSON encoding of a SHA value that [New] accepts decodes to that
    value. *)
Lemma UnmarshalJSON_MarshalJSON (s receiver : SHA) :
  validSHARegex (str s) = true ->
  exists data, MarshalJSON s = (data, None)
               /\ UnmarshalJSON receiver data = (s, None)
               /\ Equal s (fst (UnmarshalJSON receiver data)) = true.
Proof.
  intros Hv.
  assert (Hascii : allChars (inRange 0 127) (str s) = true).
  { apply andb_true_iff in Hv as [_ Hhex].
    apply allChars_Forall. apply allChars_Forall in Hhex.
    eapply Forall_impl; [exact Hhex|]. simpl. intros c Hc%isHexLower_code.
    unfold inRange. apply andb_true_iff; split; apply N.leb_le; lia. }
  destruct (json_unmarshal_marshal (str s) Hascii) as (data & Henc & Hdec).
  exists data. unfold MarshalJSON, UnmarshalJSON.
  rewrite Henc, Hdec, New_valid by assumption. simpl.
  destruct s; simpl. repeat split. by apply bool_decide_eq_true.
Qed.

(** [UnmarshalJSON] validates what it decodes, after trimming and
    lower-casing it; on a failure the receiver is left as it was. *)
Lemma UnmarshalJSON_validates (receiver : SHA) (data : list byte) (wrapped : string) :
  jsonUnmarshal data = inl wrapped ->
  UnmarshalJSON receiver data =
    if validSHARegex (ToLower (TrimSpace wrapped))
    then (mkSHA (ToLower (TrimSpace wrapped)), None)
    else (receiver,
          Some (Errorf ("invalid argument: the provided commit sha '"
                        ++ ToLower (TrimSpace wrapped) ++ "' is of invalid format"))).
Proof.
  intros Hdec. unfold UnmarshalJSON, New. rewrite Hdec.
  by destruct (validSHARegex _).
Qed.

(** [GobDecode] stores whatever string it decodes. *)
Lemma GobDecode_stores (receiver : SHA) (data : list byte) (wrapped : string) :
  gobDecode data = inl wrapped ->
  GobDecode receiver data = (mkSHA wrapped, None).
Proof. intros Hdec. unfold GobDecode. by rewrite Hdec. Qed.

(** The JSON encoding of the empty value is refused by [UnmarshalJSON]. *)
Lemma UnmarshalJSON_refuses_empty_value (receiver : SHA) :
  exists data e, MarshalJSON NoneSHA = (data, None)
                 /\ UnmarshalJSON receiver data = (receiver, Some e).
Proof.
  destruct (json_unmarshal_marshal "" eq_refl) as (data & Henc & Hdec).
  exists data. eexists. unfold MarshalJSON. simpl. rewrite Henc. split; [reflexivity|].
  by rewrite (UnmarshalJSON_validates _ _ _ Hdec).
Qed.

(** [UnmarshalJSON] passes on the error of the JSON decoder. *)
Lemma UnmarshalJSON_passes_on (receiver : SHA) (data : list byte) (err : error) :
  jsonUnmarshal data = inr err ->
  UnmarshalJSON receiver data = (receiver, Some err).
Proof. intros Hdec. unfold UnmarshalJSON. by rewrite Hdec. Qed.

(** The string ["xyz"] is no SHA; its gob encoding, whatever the encoder, is
    decoded by [GobDecode] without an error into a SHA value that holds
    ["xyz"], where [UnmarshalJSON] refuses the JSON encoding of the same
    string. *)
Lemma GobDecode_accepts_a_malformed_value (receiver : SHA) :
  validSHARegex "xyz" = false
  /\ (exists data, gobEncode "xyz" = inl data
                   /\ GobDecode receiver data = (mkSHA "xyz", None))
  /\ (exists data e, jsonMarshal "xyz" = inl data
                     /\ UnmarshalJSON receiver data = (receiver, Some e)).
Proof.
  split; [reflexivity|]. split.
  - destruct (gob_decode_encode "xyz") as (data & Henc & Hdec).
    exists data. split; [assumption|]. by apply GobDecode_stores.
  - destruct (json_unmarshal_marshal "xyz" eq_refl) as (data & Henc & Hdec).
    exists data. eexists. split; [assumption|].
    by rewrite (UnmarshalJSON_validates _ _ _ Hdec).
Qed.

(** C5, amended: the gob encoding of every SHA value decodes to an equal
    value; the JSON encoding of every SHA value whose string matches
    [^[0-9a-f]{4,64}$] decodes to an equal value; and [UnmarshalJSON]
    validates the string it decodes after trimming and lower-casing it:
    it fails, leaving the receiver as it was, when the normalised string
    does not match, and it yields the normalised string otherwise. *)
Theorem serialisation_round_trips_and_UnmarshalJSON_validates (s receiver : SHA) :
  (exists data, GobEncode s = (data, None)
                /\ GobDecode receiver data = (s, None)
                /\ Equal s (fst (GobDecode receiver data)) = true)
  /\ (validSHARegex (str s) = true ->
      exists data, MarshalJSON s = (data, None)
                   /\ UnmarshalJSON receiver data = (s, None)
                   /\ Equal s (fst (UnmarshalJSON receiver data)) = true)
  /\ (forall data wrapped, jsonUnmarshal data = inl wrapped ->
      let normalised := ToLower (TrimSpace wrapped) in
      (validSHARegex normalised = false ->
       exists err, UnmarshalJSON receiver data = (receiver, Some err))
      /\ (validSHARegex normalised = true ->
          UnmarshalJSON receiver data = (mkSHA normalised, None)))
  /\ (forall data err, jsonUnmarshal data = inr err ->
      UnmarshalJSON receiver data = (receiver, Some err)).
Proof.
  split; [|split; [|split]].
  - destruct (GobDecode_GobEncode s receiver) as (data & Henc & Hdec).
    exists data. rewrite Hdec. repeat split; [assumption|].
    by apply bool_decide_eq_true.
  - apply UnmarshalJSON_MarshalJSON.
  - intros data wrapped Hdec normalised.
    rewrite (UnmarshalJSON_validates _ _ _ Hdec). fold normalised.
    split; intros ->; eauto.
  - apply UnmarshalJSON_passes_on.
Qed.

End Serialisation.

(** On the stand-in encoders: a stored value tampered with is accepted by
    [GobDecode], and a stored JSON string in upper case is accepted by
    [UnmarshalJSON] in its lower-case form. *)
Example GobDecode_tampered :
  @GobDecode StandIn.encoders NoneSHA (StandIn.gobBytes "not a sha")
  = (mkSHA "not a sha", None).
Proof. reflexivity. Qed.

Example UnmarshalJSON_upper_case :
  @UnmarshalJSON StandIn.encoders NoneSHA (x22 :: list_byte_of_string "ABCD" ++ [x22])%list
  = (mkSHA "abcd", None).
Proof. reflexivity. Qed.

(** C5, as the spec states it, fails. On the stand-in encoders: the JSON
    encoding of the empty value [None] does not decode (no round trip); the
    JSON string ["ABCD"], which does not match [^[0-9a-f]{4,64}$], is
    accepted, as ["abcd"]; and the gob encoding of ["xyz"], which does not
    match either, is accepted as it is. *)
Lemma decoding_does_not_always_round_trip_or_refuse :
  (@MarshalJSON StandIn.encoders NoneSHA = ([x22; x22], None)
   /\ exists err, @UnmarshalJSON StandIn.encoders NoneSHA [x22; x22] = (NoneSHA, Some err))
  /\ (validSHARegex "ABCD" = false
      /\ @UnmarshalJSON StandIn.encoders NoneSHA
           (x22 :: list_byte_of_string "ABCD" ++ [x22])%list
         = (mkSHA "abcd", None))
  /\ (validSHARegex "xyz" = false
      /\ exists data, @gobEncode StandIn.encoders "xyz" = inl data
           /\ @GobDecode StandIn.encoders NoneSHA data = (mkSHA "xyz", None)).
Proof.
  repeat split; try reflexivity; eexists; try split; reflexivity.
Qed.

Lemma serialisation_round_trips_and_UnmarshalJSON_validates_witness :
  exists data, @MarshalJSON StandIn.encoders (mkSHA EmptyTree) = (data, None)
    /\ @UnmarshalJSON StandIn.encoders NoneSHA data = (mkSHA EmptyTree, None)
    /\ Equal (mkSHA EmptyTree) (fst (@UnmarshalJSON StandIn.encoders NoneSHA data)) = true.
Proof.
  destruct (@serialisation_round_trips_and_UnmarshalJSON_validates StandIn.encoders
              (mkSHA EmptyTree) NoneSHA) as (_ & Hjson & _).
  apply Hjson. reflexivity.
Defined.

Example GobDecode_GobEncode_EmptyTree :
  @GobDecode StandIn.encoders NoneSHA (fst (@GobEncode StandIn.encoders (mkSHA EmptyTree)))
  = (mkSHA EmptyTree, None).
Proof. reflexivity. Qed.

Example UnmarshalJSON_MarshalJSON_EmptyTree :
  @UnmarshalJSON StandIn.encoders NoneSHA (fst (@MarshalJSON StandIn.encoders (mkSHA EmptyTree)))
  = (mkSHA EmptyTree, None).
Proof. reflexivity. Qed.

End ShaSpec.

Module CheckSpec.
Import Check.

Section Validation.
Context `{Sanitizers}.

(** Every error of [Validate] is a [BadRequest]. *)
Lemma Validate_error_is_BadRequest (in_ : ReportInput) (e : error) :
  snd (Validate in_) = Some e -> exists msg, e = BadRequest msg.
Proof.
  unfold Validate.
  destruct (CheckStatus_Sanitize _) as [? []], (CheckPayloadKind_Sanitize _) as [? []];
    repeat case_bool_decide; repeat (destruct (matcherCheckUID _));
    simpl; intros [= <-] || discriminate; eauto.
Qed.

(** [Validate] only ever writes to the payload. *)
Lemma Validate_keeps_the_other_fields (in_ : ReportInput) :
  let out := fst (Validate in_) in
  CheckUID out = CheckUID in_ /\ Status out = Status in_
  /\ Summary out = Summary in_ /\ Link out = Link in_.
Proof.
  unfold Validate.
  destruct (CheckStatus_Sanitize _) as [? []], (CheckPayloadKind_Sanitize _) as [? []];
    repeat case_bool_decide; repeat (destruct (matcherCheckUID _));
    simpl; auto.
Qed.

(** A status that does not sanitize is a [BadRequest], whatever the rest of
    the input. *)
Lemma Validate_refuses_a_bad_status (in_ : ReportInput) :
  snd (CheckStatus_Sanitize (Status in_)) = false ->
  exists msg, Validate in_ = (in_, Some (BadRequest msg)).
Proof.
  unfold Validate. destruct (CheckStatus_Sanitize _) as [? ok]. simpl. intros ->.
  repeat case_bool_decide; repeat (destruct (matcherCheckUID _)); simpl; eauto.
Qed.

(** With a well-formed check UID, a status and a payload kind that
    sanitize, and a link when the kind is external, [Validate] succeeds. *)
Lemma Validate_succeeds (in_ : ReportInput) :
  matcherCheckUID (CheckUID in_) = true ->
  snd (CheckStatus_Sanitize (Status in_)) = true ->
  snd (CheckPayloadKind_Sanitize (Kind (Payload in_))) = true ->
  (fst (CheckPayloadKind_Sanitize (Kind (Payload in_))) = CheckPayloadKindExternal ->
   Link in_ <> "") ->
  snd (Validate in_) = None.
Proof.
  unfold Validate. intros Huid Hst Hkind Hlink.
  destruct (CheckStatus_Sanitize _) as [? ?], (CheckPayloadKind_Sanitize _) as [kind ?].
  simpl in *. subst. rewrite Huid.
  case_bool_decide as Hempty.
  { rewrite Hempty in Huid. discriminate. }
  simpl. repeat case_bool_decide; simpl in *; try reflexivity. tauto.
Qed.

(** [Validate] calls [Sanitize] on the status and drops the value it
    returns: where that value differs from the status given, the input does
    not hold it afterwards. *)
Lemma Validate_drops_the_sanitized_status (in_ : ReportInput) (sanitized : CheckStatus) :
  CheckStatus_Sanitize (Status in_) = (sanitized, true) ->
  sanitized <> Status in_ ->
  Status (fst (Validate in_)) = Status in_
  /\ Status (fst (Validate in_)) <> sanitized.
Proof.
  intros _ Hne. destruct (Validate_keeps_the_other_fields in_) as (_ & -> & _).
  split; [reflexivity|congruence].
Qed.

(** C4, amended: a status that does not sanitize makes [Validate] fail
    with a [BadRequest], whatever the rest of the input; a status that
    sanitizes lets [Validate] succeed when the check UID matches its
    pattern, the payload kind sanitizes, and the link is not empty if the
    sanitized kind is external. *)
Theorem Validate_decides_on_the_status (in_ : ReportInput) :
  (snd (CheckStatus_Sanitize (Status in_)) = false ->
   exists msg, Validate in_ = (in_, Some (BadRequest msg)))
  /\ (snd (CheckStatus_Sanitize (Status in_)) = true ->
      matcherCheckUID (CheckUID in_) = true ->
      snd (CheckPayloadKind_Sanitize (Kind (Payload in_))) = true ->
      (fst (CheckPayloadKind_Sanitize (Kind (Payload in_))) = CheckPayloadKindExternal ->
       Link in_ <> "") ->
      snd (Validate in_) = None).
Proof.
  split; [apply Validate_refuses_a_bad_status|].
  intros Hst Huid Hkind Hlink. by apply Validate_succeeds.
Qed.

(** C10: on the error path of the missing link, the input has been written
    to. When the check UID is well formed, the status sanitizes, the payload
    kind sanitizes to external and the link is empty, [Validate] returns a
    [BadRequest] and leaves the input with the sanitized payload kind, an
    empty payload version and the payload data [{}]; so the input is
    changed, unless its payload held these three values already. *)
Theorem Validate_writes_before_refusing_a_missing_link (in_ : ReportInput) :
  matcherCheckUID (CheckUID in_) = true ->
  snd (CheckStatus_Sanitize (Status in_)) = true ->
  CheckPayloadKind_Sanitize (Kind (Payload in_)) = (CheckPayloadKindExternal, true) ->
  Link in_ = "" ->
  Validate in_
  = (mkReportInput (CheckUID in_) (Status in_) (Summary in_) (Link in_)
       (mkCheckPayload CheckPayloadKindExternal "" [x7b; x7d]),
     Some (BadRequest "Link is missing"))
  /\ (Payload in_ <> mkCheckPayload CheckPayloadKindExternal "" [x7b; x7d] ->
      fst (Validate in_) <> in_).
Proof.
  intros Huid Hst Hkind Hlink.
  assert (Hne : CheckUID in_ <> "") by (intros Hempty; by rewrite Hempty in Huid).
  assert (Heq : Validate in_
    = (mkReportInput (CheckUID in_) (Status in_) (Summary in_) (Link in_)
         (mkCheckPayload CheckPayloadKindExternal "" [x7b; x7d]),
       Some (BadRequest "Link is missing"))).
  { unfold Validate. rewrite Hkind, Huid.
    destruct (CheckStatus_Sanitize _) as [? ?]. simpl in *. subst.
    rewrite (bool_decide_eq_false_2 (CheckUID in_ = "")) by assumption. simpl.
    by rewrite (bool_decide_eq_true_2 (Link in_ = "")) by assumption. }
  split; [exact Heq|].
  rewrite Heq. simpl. intros Hpayload Hsame. apply Hpayload.
  rewrite <- Hsame at 1. reflexivity.
Qed.

End Validation.

(** A report of the external kind whose status is in upper case. *)
Definition upperCaseReport : ReportInput :=
  mkReportInput "build" "SUCCESS" "all green" "https://ci.example/1"
    (mkCheckPayload "external" "v1" [x61]).

(** A report of the external kind with a payload and no link. *)
Definition linklessReport : ReportInput :=
  mkReportInput "build" "success" "all green" ""
    (mkCheckPayload "EXTERNAL" "v1" [x61]).

(** A report whose status is allowed and whose payload kind is not. *)
Definition unknownKindReport : ReportInput :=
  mkReportInput "build" "success" "all green" "https://ci.example/1"
    (mkCheckPayload "bogus" "v1" [x61]).

(** C4, as the spec states it, fails. On the stand-in sanitizers: a report
    whose status sanitizes is refused, for its payload kind; and a report in
    upper case is accepted with its status left in upper case, where the
    sanitized status is in lower case. *)
Lemma Validate_neither_always_succeeds_nor_stores_the_status :
  (@CheckStatus_Sanitize StandIn.sanitizers (Status unknownKindReport) = ("success", true)
   /\ @Validate StandIn.sanitizers unknownKindReport
      = (unknownKindReport,
         Some (BadRequest "Invalid value provided for the payload type")))
  /\ (@CheckStatus_Sanitize StandIn.sanitizers (Status upperCaseReport) = ("success", true)
      /\ snd (@Validate StandIn.sanitizers upperCaseReport) = None
      /\ Status (fst (@Validate StandIn.sanitizers upperCaseReport)) = "SUCCESS").
Proof. repeat split. Qed.

Lemma Validate_decides_on_the_status_witness :
  snd (@Validate StandIn.sanitizers upperCaseReport) = None.
Proof.
  apply (@Validate_decides_on_the_status StandIn.sanitizers upperCaseReport);
    [reflexivity..|discriminate].
Defined.

Example Validate_refuses_an_unknown_status :
  @Validate StandIn.sanitizers
    (mkReportInput "build" "green" "" "" (mkCheckPayload "external" "" []))
  = (mkReportInput "build" "green" "" "" (mkCheckPayload "external" "" []),
     Some (BadRequest "Invalid value provided for status check status")).
Proof. reflexivity. Qed.

Example Validate_refuses_a_long_check_UID :
  snd (@Validate StandIn.sanitizers
         (mkReportInput
            ("a12345678901234567890123456789012345678901234567890123456789012"
             ++ "3456789012345678901234567890123456789012345678901234567890123456"
             ++ "78")
            "success" "" "x" (mkCheckPayload "external" "" [])))
  = Some (BadRequest ("Status check UID must match the regular expression: "
                      ++ regexpCheckUID)).
Proof. reflexivity. Qed.

Lemma Validate_drops_the_sanitized_status_witness :
  (@CheckStatus_Sanitize StandIn.sanitizers (Status upperCaseReport) = ("success", true)
   /\ snd (@Validate StandIn.sanitizers upperCaseReport) = None)
  /\ Status (fst (@Validate StandIn.sanitizers upperCaseReport)) = "SUCCESS"
  /\ Status (fst (@Validate StandIn.sanitizers upperCaseReport)) <> "success".
Proof.
  split; [split; reflexivity|].
  apply (@Validate_drops_the_sanitized_status StandIn.sanitizers upperCaseReport "success");
    [reflexivity|discriminate].
Defined.

Lemma Validate_writes_before_refusing_a_missing_link_witness :
  @Validate StandIn.sanitizers linklessReport
  = (mkReportInput "build" "success" "all green" ""
       (mkCheckPayload "external" "" [x7b; x7d]),
     Some (BadRequest "Link is missing"))
  /\ fst (@Validate StandIn.sanitizers linklessReport) <> linklessReport.
Proof.
  destruct (@Validate_writes_before_refusing_a_missing_link StandIn.sanitizers
              linklessReport) as [Heq Hchanged];
    [reflexivity..|].
  split; [exact Heq|]. apply Hchanged. discriminate.
Defined.

Section Reporting.
Context `{Sanitizers} `{Services}.

(** C7: a commit SHA that fails the format check is refused before the
    backend is asked for the commit and before the store is written. With
    such a SHA, [Report] makes one call outside the controller, the access
    check, and returns an error: the error of the access check (wrapped) if
    access is refused, else the error of [Validate] if the input is invalid,
    else the [BadRequest] of the format check; so the format check comes
    after authorization and validation and before [GetCommit] and [Upsert],
    and once access is granted the error is a [BadRequest]. No call of
    [GetCommit] or [Upsert] is in the log that was not there before. *)
Theorem Report_refuses_a_malformed_commit_SHA (session : Session)
    (repoRef commitSHA : string) (in_ : ReportInput)
    (metadata : gmap string string) (st : State) :
  ValidateCommitSHA commitSHA = false ->
  let access := getRepoCheckAccess session repoRef PermissionCommitCheckReport (world st) in
  let reported := Report session repoRef commitSHA in_ metadata st in
  reported
  = (inr (match fst access with
          | inr err => Wrapf "failed to acquire access access to repo" err
          | inl _ =>
              match snd (Validate in_) with
              | Some errValidate => errValidate
              | None => BadRequest "invalid commit SHA provided"
              end
          end),
     mkState (snd access) (calls st ++ [CallRepoCheckAccess repoRef])%list)
  /\ (forall repo, fst access = inl repo ->
      exists msg, fst reported = inr (BadRequest msg))
  /\ (forall params, CallGetCommit params ∈ calls (snd reported) ->
      CallGetCommit params ∈ calls st)
  /\ (forall uid, CallUpsert uid ∈ calls (snd reported) ->
      CallUpsert uid ∈ calls st).
Proof.
  intros Hsha access reported.
  assert (Heq : reported
    = (inr (match fst access with
            | inr err => Wrapf "failed to acquire access access to repo" err
            | inl _ =>
                match snd (Validate in_) with
                | Some errValidate => errValidate
                | None => BadRequest "invalid commit SHA provided"
                end
            end),
       mkState (snd access) (calls st ++ [CallRepoCheckAccess repoRef])%list)).
  { subst reported access. unfold Report, bind, wrapping, outside.
    destruct (getRepoCheckAccess _ _ _ _) as [[repo|err] w]; simpl; [|reflexivity].
    destruct (Validate in_) as [validated [errValidate|]]; simpl; [reflexivity|].
    rewrite Hsha. reflexivity. }
  split; [exact Heq|]. rewrite Heq. simpl. split; [|split].
  - intros repo ->.
    destruct (snd (Validate in_)) as [errValidate|] eqn:Hv; [|eauto].
    apply Validate_error_is_BadRequest in Hv as [msg ->]. eauto.
  - intros params Hin. apply elem_of_app in Hin as [Hin|Hin]; [assumption|].
    apply list_elem_of_singleton in Hin. discriminate.
  - intros uid Hin. apply elem_of_app in Hin as [Hin|Hin]; [assumption|].
    apply list_elem_of_singleton in Hin. discriminate.
Qed.

End Reporting.

Definition aSession : Session := mkSession (mkPrincipal 3 "alice").

Definition aWorld : StandIn.World :=
  StandIn.mkWorld true ["4b825dc642cb6eb9a060e54bf8d69288fbee4904"] [] 1700000000000.

Definition start : @State StandIn.services := @mkState StandIn.services aWorld [].

Lemma Report_refuses_a_malformed_commit_SHA_witness :
  @ValidateCommitSHA StandIn.services "xyz" = false
  /\ @Report StandIn.sanitizers StandIn.services aSession "space/repo" "xyz"
       upperCaseReport ∅ start
     = (inr (BadRequest "invalid commit SHA provided"),
        @mkState StandIn.services aWorld [CallRepoCheckAccess "space/repo"]).
Proof.
  split; [reflexivity|].
  destruct (@Report_refuses_a_malformed_commit_SHA StandIn.sanitizers StandIn.services
              aSession "space/repo" "xyz" upperCaseReport ∅ start eq_refl)
    as [Heq _].
  exact Heq.
Defined.

(** With a well-formed SHA of a commit the repository has, the same report
    goes through: the commit is looked up and the check is stored. *)
Example Report_stores_the_check :
  let reported :=
    @Report StandIn.sanitizers StandIn.services aSession "space/repo"
      "4b825dc642cb6eb9a060e54bf8d69288fbee4904" upperCaseReport ∅ start in
  (exists check, fst reported = inl check /\ StandIn.stored (world (snd reported)) = [check])
  /\ calls (snd reported)
     = [CallRepoCheckAccess "space/repo";
        CallGetCommit (mkGetCommitParams "git-uid-7" "4b825dc642cb6eb9a060e54bf8d69288fbee4904");
        CallUpsert "build"].
Proof. split; [eexists; split; reflexivity|reflexivity]. Qed.

End CheckSpec.

Module GiteaSpec.
Import Gitea.

(** ** Reference names *)

(** C6: the physical path of a reference follows the fixed table. A raw
    name is passed through, a branch and a tag get their prefix, the head
    and the merge reference of a pull request are [refs/pullreq/<id>/head]
    and [refs/pullreq/<id>/merge], and every other reference type is
    refused as an invalid argument. *)
Theorem getRef_follows_the_table (refName : string) :
  getRef refName RefTypeRaw = (refName, None)
  /\ getRef refName RefTypeBranch = ("refs/heads/" ++ refName, None)
  /\ getRef refName RefTypeTag = ("refs/tags/" ++ refName, None)
  /\ getRef refName RefTypePullReqHead = ("refs/pullreq/" ++ refName ++ "/head", None)
  /\ getRef refName RefTypePullReqMerge = ("refs/pullreq/" ++ refName ++ "/merge", None)
  /\ (forall n, getRef refName (RefTypeOther n) = ("", Some ErrInvalidArgument)).
Proof. repeat split. Qed.

Example getRef_pull_request_head :
  getRef "42" RefTypePullReqHead = ("refs/pullreq/42/head", None).
Proof. reflexivity. Qed.

(** ** UpdateRef *)

Section Mutation.
Context `{Git}.


Lemma updateRefArgs_without_old (path newValue : string) :
  updateRefArgs path newValue "" = ["update-ref"; path; newValue].
Proof. reflexivity. Qed.




End Mutation.

(** *** UpdateRef on the stand-in backend *)

Definition idOne : string := "1111111111111111111111111111111111111111".
Definition idTwo : string := "2222222222222222222222222222222222222222".
Definition idThree : string := "3333333333333333333333333333333333333333".

Definition mainAtOne : gmap string (gmap string string) :=
  {[ "/repos/a" := {[ "refs/heads/main" := idOne ]} ]}.

(** Two writers that saw the same old value, and a caller whose raw
    reference name git reads as an option. *)
Definition won : option error * gmap string (gmap string string) :=
  @UpdateRef StandIn.git "/repos/a" "main" RefTypeBranch idTwo idOne mainAtOne.

Definition lost : option error * gmap string (gmap string string) :=
  @UpdateRef StandIn.git "/repos/a" "main" RefTypeBranch idThree idOne (snd won).



(** The second writer changes nothing: the branch keeps the value of the
    first. *)
Example UpdateRef_race :
  fst won = None
  /\ lost = (Some ErrNotFound, snd won)
  /\ StandIn.refsOf (snd lost) "/repos/a" !! "refs/heads/main" = Some idTwo.
Proof. repeat split; vm_compute; reflexivity. Qed.

(** Every fatal error of the command comes back as [ErrNotFound], also one
    that is no mismatch: here the new value is no object id. *)
Example UpdateRef_reports_a_bad_new_value_as_not_found :
  @UpdateRef StandIn.git "/repos/a" "main" RefTypeBranch "2222" "" mainAtOne
  = (Some ErrNotFound, mainAtOne).
Proof. vm_compute. reflexivity. Qed.

(** An old value of all zeroes is outside the compare-and-swap: the update
    of a reference that does not exist succeeds with it. *)
Example UpdateRef_with_an_old_value_of_zeroes :
  fst (@UpdateRef StandIn.git "/repos/a" "next" RefTypeBranch idTwo StandIn.zeroId
         mainAtOne) = None
  /\ ~ @comparesAndSwaps StandIn.git "/repos/a" "refs/heads/next" idTwo StandIn.zeroId
         mainAtOne.
Proof.
  split; [vm_compute; reflexivity|]. vm_compute. intros [Hheld _]. discriminate.
Qed.

(** ** The walk *)

(** The entries the handler, and the instructor, were called with. *)
Definition handled (trace : list WalkEvent) : list WalkReferencesEntry :=
  omap (fun e => match e with
                 | HandlerCalled ref => Some ref
                 | InstructorCalled _ => None
                 end) trace.

Definition instructed (trace : list WalkEvent) : list WalkReferencesEntry :=
  omap (fun e => match e with
                 | InstructorCalled ref => Some ref
                 | HandlerCalled _ => None
                 end) trace.

Lemma handled_app (t1 t2 : list WalkEvent) :
  handled (t1 ++ t2) = (handled t1 ++ handled t2)%list.
Proof. apply omap_app. Qed.

Lemma instructed_app (t1 t2 : list WalkEvent) :
  instructed (t1 ++ t2) = (instructed t1 ++ instructed t2)%list.
Proof. apply omap_app. Qed.

Lemma int32_small (z : Z) : - 2 ^ 31 <= z < 2 ^ 31 -> int32 z = z.
Proof. intros Hz. unfold int32. rewrite Z.mod_small by lia. lia. Qed.

Section Walk.
Context `{Helpers} `{Git} {S : Type}.

Lemma afterLoop_events (trace : list WalkEvent) (st : S) (parser : Parser) :
  events (afterLoop trace st parser) = trace.
Proof. unfold afterLoop. by destruct (Err parser). Qed.

Lemma afterLoop_returned (trace : list WalkEvent) (st : S) (parser : Parser) :
  met parser = None -> returned (afterLoop trace st parser) = Returned None.
Proof. unfold afterLoop, Err. by intros ->. Qed.

(** Each turn of the loop calls the instructor at most once, and the
    counter, which starts at [i], stays below [MaxWalkDistance]. *)
Lemma walkLoop_instructed_bound (handler : WalkReferencesHandler S)
    (opts : WalkReferencesOptions S) (ending met : option error)
    (records : list RawRef) :
  MaxWalkDistance opts <= MaxInt32 ->
  forall (i : Z) (trace : list WalkEvent) (st : S),
    0 <= i ->
    (length (instructed (events (walkLoop handler opts ending met i records trace st)))
     <= length (instructed trace) + Z.to_nat (MaxWalkDistance opts - i))%nat.
Proof.
  intros Hmax. unfold MaxInt32 in Hmax.
  induction records as [|rawRef rest IH]; intros i trace st Hi; cbn [walkLoop];
    destruct (Z.ltb_spec i (MaxWalkDistance opts)) as [Hlt|Hge]; cbn [negb];
    rewrite ?afterLoop_events; try lia.
  destruct (mapGiteaRawRef rawRef) as [ref [err|]]; cbn [events]; [lia|].
  destruct (Instructor opts) as [instructor|]; cbn [events]; [|lia].
  destruct (instructor ref st) as [[instruction [err|]] st1]; cbn [events].
  { rewrite instructed_app, length_app. simpl. lia. }
  rewrite int32_small by lia.
  repeat case_bool_decide.
  - etransitivity; [apply IH; lia|].
    rewrite instructed_app, length_app. simpl. lia.
  - rewrite afterLoop_events, instructed_app, length_app. simpl. lia.
  - destruct (handler ref st1) as [[err|] st2]; cbn [events].
    + rewrite !instructed_app, !length_app. simpl. lia.
    + etransitivity; [apply IH; lia|].
      rewrite !instructed_app, !length_app. simpl. lia.
Qed.

(** The entries of a list of records. *)
Definition entries (records : list RawRef) : list WalkReferencesEntry :=
  (fun rawRef => fst (mapGiteaRawRef rawRef)) <$> records.

(** [HandlesThenStops instructor handler k records st]: run from the state
    [st] on [records], the instructor returns Handle for the first [k]
    records, each of which the handler then handles without an error, and
    Stop for the next record. *)
Inductive HandlesThenStops (instructor : WalkReferencesInstructor S)
    (handler : WalkReferencesHandler S) : nat -> list RawRef -> S -> Prop :=
| stops_here (rawRef : RawRef) (rest : list RawRef) (ref : WalkReferencesEntry)
    (st st1 : S) :
    mapGiteaRawRef rawRef = (ref, None) ->
    instructor ref st = ((WalkInstructionStop, None), st1) ->
    HandlesThenStops instructor handler 0 (rawRef :: rest) st
| handles_one (k : nat) (rawRef : RawRef) (rest : list RawRef)
    (ref : WalkReferencesEntry) (st st1 st2 : S) :
    mapGiteaRawRef rawRef = (ref, None) ->
    instructor ref st = ((WalkInstructionHandle, None), st1) ->
    handler ref st1 = (None, st2) ->
    HandlesThenStops instructor handler k rest st2 ->
    HandlesThenStops instructor handler (Datatypes.S k) (rawRef :: rest) st.

Lemma HandlesThenStops_more_records (instructor : WalkReferencesInstructor S)
    (handler : WalkReferencesHandler S) (k : nat) (records : list RawRef) (st : S) :
  HandlesThenStops instructor handler k records st -> (k < length records)%nat.
Proof. induction 1; simpl; lia. Qed.

Lemma walkLoop_handles_then_stops (instructor : WalkReferencesInstructor S)
    (handler : WalkReferencesHandler S) (opts : WalkReferencesOptions S)
    (ending : option error) (k : nat) (records : list RawRef) (st : S) :
  Instructor opts = Some instructor ->
  MaxWalkDistance opts <= MaxInt32 ->
  HandlesThenStops instructor handler k records st ->
  forall (i : Z) (trace : list WalkEvent),
    0 <= i -> i + Z.of_nat k < MaxWalkDistance opts ->
    let walked := walkLoop handler opts ending None i records trace st in
    returned walked = Returned None
    /\ handled (events walked) = (handled trace ++ take k (entries records))%list
    /\ instructed (events walked)
       = (instructed trace ++ take (Datatypes.S k) (entries records))%list.
Proof.
  intros Hinstr Hmax. unfold MaxInt32 in Hmax.
  induction 1 as [rawRef rest ref st st1 Hmap Hstop
                 |k rawRef rest ref st st1 st2 Hmap Hhandle Hok Hrest IH];
    intros i trace Hi Hlt; cbn [walkLoop entries fmap list_fmap];
    (destruct (Z.ltb_spec i (MaxWalkDistance opts)); [|lia]); cbn [negb];
    rewrite Hmap, Hinstr; cbn [fst].
  - rewrite Hstop. cbv beta iota zeta.
    rewrite (bool_decide_eq_false_2 (WalkInstructionStop = WalkInstructionSkip))
      by discriminate.
    rewrite (bool_decide_eq_true_2 (WalkInstructionStop = WalkInstructionStop))
      by reflexivity.
    rewrite afterLoop_returned, afterLoop_events by reflexivity.
    rewrite handled_app, instructed_app. simpl. by rewrite app_nil_r.
  - rewrite Hhandle. cbv beta iota zeta.
    rewrite (bool_decide_eq_false_2 (WalkInstructionHandle = WalkInstructionSkip))
      by discriminate.
    rewrite (bool_decide_eq_false_2 (WalkInstructionHandle = WalkInstructionStop))
      by discriminate.
    rewrite Hok. rewrite int32_small by lia.
    destruct (IH (i + 1) ((trace ++ [InstructorCalled ref]) ++ [HandlerCalled ref])%list)
      as (Hret & Hhandled & Hinstructed); [lia..|].
    split; [exact Hret|]. split.
    + rewrite Hhandled, !handled_app. simpl. rewrite app_nil_r.
      by rewrite <- app_assoc.
    + rewrite Hinstructed, !instructed_app. simpl. rewrite app_nil_r.
      by rewrite <- app_assoc.
Qed.

(** C2: when the instructor returns Handle for the first [k] records and
    Stop at the next one, the handler is called exactly [k] times, on the
    first [k] records and on no other, and the walk returns without an
    error. The parser is new ([met] is empty), the handler returns no error
    on the records it handles, and the walk distance is more than [k]. *)
Theorem walk_handles_k_records_then_stops (parser : Parser)
    (instructor : WalkReferencesInstructor S) (handler : WalkReferencesHandler S)
    (opts : WalkReferencesOptions S) (k : nat) (st : S) :
  Instructor opts = Some instructor ->
  met parser = None ->
  Z.of_nat k < MaxWalkDistance opts <= MaxInt32 ->
  HandlesThenStops instructor handler k (pending parser) st ->
  let walked := walkGiteaReferenceParser parser handler opts st in
  returned walked = Returned None
  /\ length (handled (events walked)) = k
  /\ handled (events walked) = take k (entries (pending parser))
  /\ instructed (events walked) = take (Datatypes.S k) (entries (pending parser)).
Proof.
  intros Hinstr Hmet [Hk Hmax] Hrun walked.
  pose proof (HandlesThenStops_more_records _ _ _ _ _ Hrun) as Hlen.
  destruct (walkLoop_handles_then_stops instructor handler opts (ending parser) k
              (pending parser) st Hinstr Hmax Hrun 0 []) as (Hret & Hhandled & Hinstructed);
    [lia..|].
  subst walked. unfold walkGiteaReferenceParser. rewrite Hmet.
  split; [exact Hret|]. split; [|split; assumption].
  rewrite Hhandled. simpl. rewrite length_take. unfold entries.
  rewrite length_fmap. lia.
Qed.

(** [walkGiteaReferenceParser] calls the instructor at most
    [MaxWalkDistance] times. *)
Lemma walkGiteaReferenceParser_instructed_bound (parser : Parser)
    (handler : WalkReferencesHandler S) (opts : WalkReferencesOptions S) (st : S) :
  MaxWalkDistance opts <= MaxInt32 ->
  (length (instructed (events (walkGiteaReferenceParser parser handler opts st)))
   <= Z.to_nat (MaxWalkDistance opts))%nat.
Proof.
  intros Hmax. unfold walkGiteaReferenceParser.
  etransitivity; [by apply walkLoop_instructed_bound|].
  simpl. rewrite Z.sub_0_r. lia.
Qed.

(** ** The options of [WalkReferences] *)

(** What [backfill] leaves in each field: the default where the field was
    unset, the value of the caller where it was set. *)
Lemma backfill_fields (o : WalkReferencesOptions S) :
  Instructor (backfill o) = Some (default DefaultInstructor (Instructor o))
  /\ Fields (backfill o)
     = (if bool_decide (length (Fields o) = 0%nat)
        then [GitReferenceFieldRefName; GitReferenceFieldObjectName]
        else Fields o)
  /\ MaxWalkDistance (backfill o)
     = (if MaxWalkDistance o <=? 0 then MaxInt32 else MaxWalkDistance o)
  /\ Patterns (backfill o) = Some (default [] (Patterns o))
  /\ Sort (backfill o)
     = (if bool_decide (Sort o = "") then GitReferenceFieldRefName else Sort o)
  /\ Order (backfill o) = Order o.
Proof.
  destruct o as [patterns fields instructor sort order distance].
  unfold backfill. cbn [Instructor Fields MaxWalkDistance Patterns Sort Order].
  destruct instructor, patterns; simpl;
    destruct (bool_decide (length fields = 0%nat)); simpl;
    destruct (distance <=? 0); simpl;
    destruct (bool_decide (sort = "")); simpl; done.
Qed.

(** C3, amended: the defaults are written through the pointer. After
    [WalkReferences] the options of the caller hold the default in every
    field that was unset (the default instructor, the fields name and object
    name, the distance [MaxInt32], the empty pattern list, the sort field
    name) and the value of the caller in every field that was set, the order
    included; no other options value in the heap is written. *)
Theorem WalkReferences_backfills_the_options_of_the_caller (repoPath : string)
    (handler : WalkReferencesHandler S) (opts : nat)
    (heap : gmap nat (WalkReferencesOptions S)) (repos : Repos) (st : S)
    (o : WalkReferencesOptions S) :
  heap !! opts = Some o ->
  let heap' := fst (WalkReferences repoPath handler opts heap repos st) in
  (exists o', heap' !! opts = Some o'
     /\ Instructor o' = Some (default DefaultInstructor (Instructor o))
     /\ Fields o'
        = (if bool_decide (length (Fields o) = 0%nat)
           then [GitReferenceFieldRefName; GitReferenceFieldObjectName]
           else Fields o)
     /\ MaxWalkDistance o'
        = (if MaxWalkDistance o <=? 0 then MaxInt32 else MaxWalkDistance o)
     /\ Patterns o' = Some (default [] (Patterns o))
     /\ Sort o'
        = (if bool_decide (Sort o = "") then GitReferenceFieldRefName else Sort o)
     /\ Order o' = Order o)
  /\ (forall other, other <> opts -> heap' !! other = heap !! other).
Proof.
  intros Hopts heap'. subst heap'. unfold WalkReferences. rewrite Hopts. cbn [fst].
  split.
  - exists (backfill o). split; [apply lookup_insert_eq|apply backfill_fields].
  - intros other Hother. by apply lookup_insert_ne.
Qed.

(** C8: a walk with the distance set to [m] calls the instructor at most
    [m] times, however many references match. *)
Theorem WalkReferences_instructs_at_most_MaxWalkDistance_times (repoPath : string)
    (handler : WalkReferencesHandler S) (opts : nat)
    (heap : gmap nat (WalkReferencesOptions S)) (repos : Repos) (st : S)
    (o : WalkReferencesOptions S) (m : Z) :
  heap !! opts = Some o ->
  MaxWalkDistance o = m ->
  0 < m <= MaxInt32 ->
  Z.of_nat (length (instructed (events (snd
    (WalkReferences repoPath handler opts heap repos st))))) <= m.
Proof.
  intros Hopts Hm [Hpos Hmax]. unfold WalkReferences. rewrite Hopts. cbn [snd].
  destruct (backfill_fields o) as (_ & _ & Hdist & _).
  rewrite Hm in Hdist. destruct (Z.leb_spec m 0) as [|_]; [lia|].
  pose proof (walkGiteaReferenceParser_instructed_bound
    (RunForEachRef repoPath (Fields (backfill o)) (forEachRefArgs (backfill o)) repos)
    handler (backfill o) st) as Hbound.
  rewrite Hdist in Hbound. specialize (Hbound Hmax). lia.
Qed.

End Walk.

(** *** The walk on the stand-in backend *)

Definition threeRecords : list RawRef :=
  StandIn.recordOf <$>
    [("refs/heads/a", "1111"); ("refs/heads/b", "2222"); ("refs/heads/c", "3333")].

(** A caller that counts the records handled, and stops after two. *)
Definition stopAfterTwo : WalkReferencesInstructor nat :=
  fun _ count =>
    if (count <? 2)%nat then ((WalkInstructionHandle, None), count)
    else ((WalkInstructionStop, None), count).

Definition countingHandler : WalkReferencesHandler nat :=
  fun _ count => (None, Datatypes.S count).

Definition optionsWith {S : Type} (instructor : option (WalkReferencesInstructor S))
    (distance : Z) : WalkReferencesOptions S :=
  mkOptions (Some []) ["refname"; "objectname"] instructor "refname"
    SortOrderDefault distance.

Definition stoppedWalk : Walked nat :=
  @walkGiteaReferenceParser StandIn.helpers nat (mkParser threeRecords None None)
    countingHandler (optionsWith (Some stopAfterTwo) MaxInt32) 0%nat.

Lemma walk_handles_k_records_then_stops_witness :
  returned stoppedWalk = Returned None
  /\ length (handled (events stoppedWalk)) = 2%nat
  /\ handled (events stoppedWalk) = take 2 (@entries StandIn.helpers threeRecords)
  /\ instructed (events stoppedWalk) = take 3 (@entries StandIn.helpers threeRecords).
Proof.
  apply (@walk_handles_k_records_then_stops StandIn.helpers nat
           (mkParser threeRecords None None) stopAfterTwo countingHandler
           (optionsWith (Some stopAfterTwo) MaxInt32) 2 0%nat).
  - reflexivity.
  - reflexivity.
  - unfold MaxInt32. simpl. lia.
  - eapply handles_one; [reflexivity..|].
    eapply handles_one; [reflexivity..|].
    eapply stops_here; reflexivity.
Defined.

Example stoppedWalk_counts : callerState stoppedWalk = 2%nat.
Proof. reflexivity. Qed.

(** An instructor that skips the second record: the handler sees the first
    and the third. *)
Definition skipSecond : WalkReferencesInstructor nat :=
  fun ref count =>
    if bool_decide (ref !! "refname" = Some "refs/heads/b")
    then ((WalkInstructionSkip, None), count)
    else ((WalkInstructionHandle, None), count).

Example walk_skips :
  let walked :=
    @walkGiteaReferenceParser StandIn.helpers nat (mkParser threeRecords None None)
      countingHandler (optionsWith (Some skipSecond) MaxInt32) 0%nat in
  returned walked = Returned None
  /\ handled (events walked)
     = StandIn.recordOf <$> [("refs/heads/a", "1111"); ("refs/heads/c", "3333")]
  /\ length (instructed (events walked)) = 3%nat.
Proof. vm_compute. repeat split. Qed.

(** A handler that fails on the second record: the walk returns its error
    and calls nothing after it. *)
Definition failOnSecond : WalkReferencesHandler nat :=
  fun _ count =>
    if (count =? 1)%nat then (Some (ForeignError "handler"), count)
    else (None, Datatypes.S count).

Example walk_returns_the_error_of_the_handler :
  let walked :=
    @walkGiteaReferenceParser StandIn.helpers nat (mkParser threeRecords None None)
      failOnSecond (optionsWith (Some DefaultInstructor) MaxInt32) 0%nat in
  returned walked
  = Returned (Some (Wrapf "error handling reference" (ForeignError "handler")))
  /\ length (handled (events walked)) = 2%nat
  /\ length (instructed (events walked)) = 2%nat.
Proof. vm_compute. repeat split. Qed.

(** A stream that ends in a malformed record: the walk handles the records
    before it and returns the error of the parser. *)
Example walk_returns_the_error_of_the_parser :
  let walked :=
    @walkGiteaReferenceParser StandIn.helpers nat
      (mkParser threeRecords (Some (ForeignError "malformed reference record")) None)
      countingHandler (optionsWith (Some DefaultInstructor) MaxInt32) 0%nat in
  returned walked
  = Returned (Some (Wrapf "failed to parse reference walk output"
                      (ForeignError "malformed reference record")))
  /\ callerState walked = 3%nat.
Proof. vm_compute. repeat split. Qed.

(** Three branches on disk, and a caller whose options set only the
    distance, to two. *)
Definition threeBranches : gmap string (gmap string string) :=
  {[ "/repos/a" := {[ "refs/heads/a" := "1111"; "refs/heads/b" := "2222";
                      "refs/heads/c" := "3333" ]} ]}.

Definition distanceTwo : WalkReferencesOptions nat :=
  mkOptions None [] None "" SortOrderDefault 2.

Lemma WalkReferences_instructs_at_most_MaxWalkDistance_times_witness :
  Z.of_nat (length (instructed (events (snd
    (@WalkReferences StandIn.helpers StandIn.git nat "/repos/a" countingHandler 0%nat
       {[ 0%nat := distanceTwo ]} threeBranches 0%nat))))) <= 2.
Proof.
  apply (@WalkReferences_instructs_at_most_MaxWalkDistance_times StandIn.helpers StandIn.git nat
           "/repos/a" countingHandler 0%nat {[ 0%nat := distanceTwo ]} threeBranches
           0%nat distanceTwo 2).
  - reflexivity.
  - reflexivity.
  - unfold MaxInt32. lia.
Defined.

Example WalkReferences_distance_two_handles_two :
  callerState (snd (@WalkReferences StandIn.helpers StandIn.git nat "/repos/a" countingHandler 0%nat
                      {[ 0%nat := distanceTwo ]} threeBranches 0%nat)) = 2%nat.
Proof. vm_compute. reflexivity. Qed.

(** The options of a caller that sets nothing. *)
Definition unsetOptions : WalkReferencesOptions nat :=
  mkOptions None [] None "" SortOrderDefault 0.

Definition heapAfterWalk : gmap nat (WalkReferencesOptions nat) :=
  fst (@WalkReferences StandIn.helpers StandIn.git nat "/repos/a" countingHandler 0%nat
         {[ 0%nat := unsetOptions ]} threeBranches 0%nat).

(** C3, as the spec states it, fails: the options are passed by pointer
    and the defaults are assigned to its fields, so the caller finds them
    in its own options after the call. Before the call the distance is 0,
    the field list empty, the sort field empty and the patterns nil; after
    the call they are [MaxInt32], name and object name, name, and the empty
    list. *)
Lemma WalkReferences_changes_the_options_of_the_caller :
  (MaxWalkDistance unsetOptions = 0
   /\ Fields unsetOptions = []
   /\ Sort unsetOptions = ""
   /\ Patterns unsetOptions = None)
  /\ (MaxWalkDistance <$> heapAfterWalk !! 0%nat) = Some MaxInt32
  /\ (Fields <$> heapAfterWalk !! 0%nat) = Some ["refname"; "objectname"]
  /\ (Sort <$> heapAfterWalk !! 0%nat) = Some "refname"
  /\ (Patterns <$> heapAfterWalk !! 0%nat) = Some (Some [])
  /\ heapAfterWalk !! 0%nat <> Some unsetOptions.
Proof.
  split; [repeat split|].
  assert (Hafter : heapAfterWalk !! 0%nat
                   = Some (@backfill StandIn.helpers nat unsetOptions)).
  { unfold heapAfterWalk, WalkReferences.
    rewrite lookup_singleton_eq. cbn [fst]. apply lookup_insert_eq. }
  rewrite Hafter. repeat split. intros [= Heq].
Qed.

Lemma WalkReferences_backfills_the_options_of_the_caller_witness :
  (exists o', heapAfterWalk !! 0%nat = Some o'
     /\ Instructor o' = Some DefaultInstructor
     /\ Fields o' = ["refname"; "objectname"]
     /\ MaxWalkDistance o' = MaxInt32
     /\ Patterns o' = Some []
     /\ Sort o' = "refname"
     /\ Order o' = SortOrderDefault)
  /\ (forall other, other <> 0%nat ->
      heapAfterWalk !! other = ({[ 0%nat := unsetOptions ]} : gmap nat _) !! other).
Proof.
  apply (@WalkReferences_backfills_the_options_of_the_caller StandIn.helpers StandIn.git nat
           "/repos/a" countingHandler 0%nat {[ 0%nat := unsetOptions ]} threeBranches
           0%nat unsetOptions).
  reflexivity.
Defined.

End GiteaSpec.

(** * Further properties of the three packages *)

Module ShaMore.
Import Sha.

Lemma allChars_impl (p q : ascii -> bool) (s : string) :
  (forall c, p c = true -> q c = true) ->
  allChars p s = true -> allChars q s = true.
Proof.
  intros Hpq. induction s as [|c s IH]; simpl; [reflexivity|].
  intros [Hc Hs]%andb_true_iff. by rewrite (Hpq c Hc), IH.
Qed.

Lemma nilRegex_valid (s : string) : nilRegex s = true -> validSHARegex s = true.
Proof.
  unfold nilRegex, validSHARegex. intros [Hlen Hzero]%andb_true_iff.
  rewrite Hlen. simpl. eapply allChars_impl; [|exact Hzero].
  intros c Hc%N.eqb_eq. unfold isHexLower, isDigit, inRange. by rewrite Hc.
Qed.

Lemma valid_not_empty (s : string) : validSHARegex s = true -> s <> "".
Proof. intros Hv ->. discriminate. Qed.

(** X1: what [New] returns without an error is well formed, and it is a
    fixed point of [New]: constructing a SHA again from the string of a SHA
    gives the same SHA, and [Must] returns it. *)
Theorem New_returns_a_fixed_point (value : string) (sha : SHA) :
  New value = (sha, None) ->
  validSHARegex (String sha) = true
  /\ New (String sha) = (sha, None)
  /\ Must (String sha) = Returned sha.
Proof.
  intros Hnew.
  assert (Hv : validSHARegex (str sha) = true).
  { destruct (ShaSpec.New_returns value) as [(e & He & _)|[Heq Hv]];
      rewrite Hnew in *; [discriminate|].
    by injection Heq as ->. }
  unfold String, Must. rewrite (ShaSpec.New_valid _ Hv).
  by destruct sha.
Qed.

Lemma New_returns_a_fixed_point_witness :
  validSHARegex (String (mkSHA "4b825dc6")) = true
  /\ New (String (mkSHA "4b825dc6")) = (mkSHA "4b825dc6", None)
  /\ Must (String (mkSHA "4b825dc6")) = Returned (mkSHA "4b825dc6").
Proof.
  apply (New_returns_a_fixed_point " 4B825DC6 " (mkSHA "4b825dc6")). reflexivity.
Defined.

(** X2: a SHA that [IsNil] is a well-formed SHA: it is not empty, and [New]
    accepts its string as it is. *)
Theorem IsNil_is_well_formed (s : SHA) :
  IsNil s = true ->
  validSHARegex (String s) = true
  /\ IsEmpty s = false
  /\ New (String s) = (s, None).
Proof.
  intros Hnil%nilRegex_valid. unfold String. split; [assumption|]. split.
  - apply bool_decide_eq_false. by apply valid_not_empty.
  - rewrite (ShaSpec.New_valid _ Hnil). by destruct s.
Qed.

Lemma IsNil_is_well_formed_witness :
  validSHARegex (String Nil) = true
  /\ IsEmpty Nil = false
  /\ New (String Nil) = (Nil, None).
Proof. apply (IsNil_is_well_formed Nil). reflexivity. Defined.

Section Decoding.
Context `{Encoders}.

(** X3: [UnmarshalJSON] either succeeds and leaves a well-formed SHA in the
    receiver, or fails and leaves the receiver as it was; a SHA that is not
    well formed never comes out of it. *)
Theorem UnmarshalJSON_yields_a_well_formed_SHA_or_nothing
    (receiver : SHA) (data : list byte) :
  match UnmarshalJSON receiver data with
  | (decoded, None) => validSHARegex (String decoded) = true
  | (kept, Some _) => kept = receiver
  end.
Proof.
  unfold UnmarshalJSON. destruct (jsonUnmarshal data) as [wrapped|err]; [|reflexivity].
  destruct (ShaSpec.New_returns wrapped) as [(e & -> & _)|[-> Hv]]; [reflexivity|].
  exact Hv.
Qed.

End Decoding.

End ShaMore.

Module CheckMore.
Import Check.

Lemma uidHead_uidTail (c : ascii) : uidHead c = true -> uidTail c = true.
Proof.
  unfold uidHead, uidTail. intros [Ha|Hu]%orb_true_iff.
  - rewrite Ha. by rewrite orb_true_r.
  - rewrite Hu. by rewrite !orb_true_r.
Qed.

(** What [matcherCheckUID] accepts has 1 to 128 bytes, all of them of the
    class [[0-9a-zA-Z-_.$]]. *)
Lemma matcherCheckUID_bounds (s : string) :
  matcherCheckUID s = true ->
  (1 <= String.length s <= 128)%nat /\ allChars uidTail s = true.
Proof.
  destruct s as [|c rest]; [discriminate|]. simpl.
  intros [[Hhead Hlen]%andb_true_iff Htail]%andb_true_iff.
  unfold lengthBetween in Hlen. apply andb_true_iff in Hlen as [_ Hlen%Nat.leb_le].
  split; [lia|]. by rewrite (uidHead_uidTail _ Hhead), Htail.
Qed.

Section Validation.
Context `{Sanitizers}.

(** X4: an input that [Validate] accepts has a check UID of 1 to 128 bytes,
    all of them letters, digits or one of [-], [_], [.], [$]. *)
Theorem Validate_accepts_only_short_plain_check_UIDs (in_ : ReportInput) :
  snd (Validate in_) = None ->
  (1 <= String.length (CheckUID in_) <= 128)%nat
  /\ allChars uidTail (CheckUID in_) = true.
Proof.
  intros Hok. apply matcherCheckUID_bounds. revert Hok. unfold Validate.
  case_bool_decide; [discriminate|].
  destruct (matcherCheckUID (CheckUID in_)); [reflexivity|discriminate].
Qed.

(** X5: every error of [Validate] but the missing link leaves the input as
    it was given. *)
Theorem Validate_fails_early_without_writing (in_ : ReportInput) (e : error) :
  snd (Validate in_) = Some e ->
  e <> BadRequest "Link is missing" ->
  fst (Validate in_) = in_.
Proof.
  unfold Validate.
  destruct (CheckStatus_Sanitize _) as [? []], (CheckPayloadKind_Sanitize _) as [? []];
    repeat case_bool_decide; repeat (destruct (matcherCheckUID _));
    simpl; try reflexivity; try discriminate; intros [= <-] Hne; by destruct Hne.
Qed.

(** X6: on success the input holds the sanitized payload kind; if that is
    the external kind, the payload version is empty, the payload data is
    [{}] and the link is not empty; if it is another kind, the payload
    version and data are the ones given. *)
Theorem Validate_leaves_a_sanitized_payload (in_ : ReportInput) :
  snd (Validate in_) = None ->
  let out := fst (Validate in_) in
  Kind (Payload out) = fst (CheckPayloadKind_Sanitize (Kind (Payload in_)))
  /\ (Kind (Payload out) = CheckPayloadKindExternal ->
      Version (Payload out) = "" /\ Data (Payload out) = [x7b; x7d] /\ Link out <> "")
  /\ (Kind (Payload out) <> CheckPayloadKindExternal ->
      Version (Payload out) = Version (Payload in_)
      /\ Data (Payload out) = Data (Payload in_)).
Proof.
  unfold Validate.
  destruct (CheckStatus_Sanitize _) as [? []], (CheckPayloadKind_Sanitize _) as [kind []];
    repeat case_bool_decide; repeat (destruct (matcherCheckUID _));
    simpl in *; try discriminate; intros _; repeat split; try tauto; try congruence.
Qed.

(** X7: [Validate] is idempotent once the payload kind is: if sanitizing a
    sanitized payload kind gives it back, then an input that [Validate] has
    accepted is accepted again and left as it is. *)
Theorem Validate_is_idempotent (in_ : ReportInput) :
  (forall kind sanitized,
      CheckPayloadKind_Sanitize kind = (sanitized, true) ->
      CheckPayloadKind_Sanitize sanitized = (sanitized, true)) ->
  snd (Validate in_) = None ->
  Validate (fst (Validate in_)) = (fst (Validate in_), None).
Proof.
  intros Hidem. unfold Validate at 1 3 4.
  case_bool_decide as Hempty; [discriminate|].
  destruct (matcherCheckUID (CheckUID in_)) eqn:Huid; [|discriminate]. simpl.
  destruct (CheckStatus_Sanitize (Status in_)) as [st ok] eqn:Hst.
  destruct ok; [|discriminate]. simpl.
  destruct (CheckPayloadKind_Sanitize (Kind (Payload in_))) as [kind ok] eqn:Hkind.
  destruct ok; [|discriminate]. simpl.
  pose proof (Hidem _ _ Hkind) as Hkind'.
  case_bool_decide as Hext.
  - case_bool_decide as Hlink; [discriminate|]. intros _. simpl.
    unfold Validate. simpl. rewrite Huid, Hst, Hkind'. simpl.
    rewrite (bool_decide_eq_false_2 (CheckUID in_ = "")) by assumption. simpl.
    rewrite (bool_decide_eq_true_2 (kind = CheckPayloadKindExternal)) by assumption.
    by rewrite (bool_decide_eq_false_2 (Link in_ = "")) by assumption.
  - intros _. simpl.
    unfold Validate. simpl. rewrite Huid, Hst, Hkind'. simpl.
    rewrite (bool_decide_eq_false_2 (CheckUID in_ = "")) by assumption. simpl.
    by rewrite (bool_decide_eq_false_2 (kind = CheckPayloadKindExternal)) by assumption.
Qed.

End Validation.

(** Two reports for the stand-in sanitizers: one that is accepted, one whose
    status is unknown. *)
Definition acceptedReport : ReportInput :=
  mkReportInput "ci.build-1" "Success" "all green" "https://ci.example/1"
    (mkCheckPayload "External" "v1" [x61]).

Definition unknownStatusReport : ReportInput :=
  mkReportInput "ci.build-1" "green" "all green" ""
    (mkCheckPayload "External" "v1" [x61]).

Lemma Validate_accepts_only_short_plain_check_UIDs_witness :
  (1 <= String.length (CheckUID acceptedReport) <= 128)%nat
  /\ allChars uidTail (CheckUID acceptedReport) = true.
Proof.
  apply (@Validate_accepts_only_short_plain_check_UIDs StandIn.sanitizers acceptedReport).
  reflexivity.
Defined.

Lemma Validate_fails_early_without_writing_witness :
  fst (@Validate StandIn.sanitizers unknownStatusReport) = unknownStatusReport.
Proof.
  apply (@Validate_fails_early_without_writing StandIn.sanitizers unknownStatusReport
           (BadRequest "Invalid value provided for status check status"));
    [reflexivity|discriminate].
Defined.

Lemma Validate_leaves_a_sanitized_payload_witness :
  Kind (Payload (fst (@Validate StandIn.sanitizers acceptedReport))) = "external"
  /\ (Kind (Payload (fst (@Validate StandIn.sanitizers acceptedReport)))
      = CheckPayloadKindExternal ->
      Version (Payload (fst (@Validate StandIn.sanitizers acceptedReport))) = ""
      /\ Data (Payload (fst (@Validate StandIn.sanitizers acceptedReport))) = [x7b; x7d]
      /\ Link (fst (@Validate StandIn.sanitizers acceptedReport)) <> "")
  /\ (Kind (Payload (fst (@Validate StandIn.sanitizers acceptedReport)))
      <> CheckPayloadKindExternal ->
      Version (Payload (fst (@Validate StandIn.sanitizers acceptedReport)))
      = Version (Payload acceptedReport)
      /\ Data (Payload (fst (@Validate StandIn.sanitizers acceptedReport)))
         = Data (Payload acceptedReport)).
Proof.
  apply (@Validate_leaves_a_sanitized_payload StandIn.sanitizers acceptedReport).
  reflexivity.
Defined.

(** The stand-in sanitizer gives a sanitized payload kind back. *)
Lemma sanitizers_idempotent (kind sanitized : CheckPayloadKind) :
  @CheckPayloadKind_Sanitize StandIn.sanitizers kind = (sanitized, true) ->
  @CheckPayloadKind_Sanitize StandIn.sanitizers sanitized = (sanitized, true).
Proof.
  simpl. unfold StandIn.sanitizeAmong. case_bool_decide as Hin; [|discriminate].
  intros [= <-].
  apply elem_of_cons in Hin as [->|Hin]; [reflexivity|].
  apply elem_of_cons in Hin as [->|Hin]; [reflexivity|].
  by apply elem_of_nil in Hin.
Qed.

Lemma Validate_is_idempotent_witness :
  @Validate StandIn.sanitizers (fst (@Validate StandIn.sanitizers acceptedReport))
  = (fst (@Validate StandIn.sanitizers acceptedReport), None).
Proof.
  apply (@Validate_is_idempotent StandIn.sanitizers acceptedReport);
    [exact sanitizers_idempotent|reflexivity].
Defined.

Section Reporting.
Context `{Sanitizers} `{Services}.

(** The record [Report] hands to the store, from the repository, the
    validated input and the time on the clock. *)
Definition recordOf (session : Session) (repo : Repository) (commitSHA : string)
    (validated : ReportInput) (metadata : gmap string string) (time : Z)
    : types.Check PrincipalInfo :=
  types.mkCheck (PrincipalID (SessionPrincipal session)) time time
    (RepoID repo) commitSHA (CheckUID validated) (Status validated)
    (Summary validated) (Link validated) (Payload validated)
    (MarshalMetadata metadata) (ToPrincipalInfo (SessionPrincipal session)).

(** [Report] up to the lookup of the commit, when every check passes. *)
Lemma Report_after_the_checks (session : Session) (repoRef commitSHA : string)
    (in_ validated : ReportInput) (metadata : gmap string string) (st : State)
    (repo : Repository) (w1 : World) :
  getRepoCheckAccess session repoRef PermissionCommitCheckReport (world st)
  = (inl repo, w1) ->
  Validate in_ = (validated, None) ->
  ValidateCommitSHA commitSHA = true ->
  let params := mkGetCommitParams (GitUID repo) commitSHA in
  Report session repoRef commitSHA in_ metadata st
  = match GetCommit params w1 with
    | (Some err, w2) =>
        (inr (Wrapf ("failed to commit sha=" ++ commitSHA) err),
         mkState w2 (calls st ++ [CallRepoCheckAccess repoRef; CallGetCommit params])%list)
    | (None, w2) =>
        let log := (calls st ++ [CallRepoCheckAccess repoRef; CallGetCommit params;
                                 CallUpsert (CheckUID validated)])%list in
        match Upsert (recordOf session repo commitSHA validated metadata
                        (UnixMilliNow w2)) w2 with
        | ((_, Some err), w3) =>
            (inr (Wrapf ("failed to upsert status check result for repo="
                         ++ RepoUID repo) err), mkState w3 log)
        | ((stored, None), w3) => (inl stored, mkState w3 log)
        end
    end.
Proof.
  intros Haccess Hvalid Hsha params.
  unfold Report, bind, wrapping, outside, now, ret, fail. rewrite Haccess. simpl.
  rewrite Hvalid, Hsha. simpl.
  fold params. destruct (GetCommit params w1) as [[err|] w2]; simpl.
  - by rewrite <- app_assoc.
  - unfold recordOf.
    destruct (Upsert _ w2) as [[stored [err|]] w3]; simpl;
      by rewrite <- !app_assoc.
Qed.

(** X8: the calls [Report] makes outside the controller are, in this order,
    the access check, the lookup of the commit and the write to the store,
    or the first one or two of them: the commit is not looked up before
    access is granted, the store is not written before the commit is found,
    and a record is returned only after all three. *)
Theorem Report_calls_in_order (session : Session) (repoRef commitSHA : string)
    (in_ : ReportInput) (metadata : gmap string string) (st : State) :
  let reported := Report session repoRef commitSHA in_ metadata st in
  exists (n : nat) (gitUID : string),
    (1 <= n <= 3)%nat
    /\ calls (snd reported)
       = (calls st
          ++ take n [CallRepoCheckAccess repoRef;
                     CallGetCommit (mkGetCommitParams gitUID commitSHA);
                     CallUpsert (CheckUID in_)])%list
    /\ (forall check, fst reported = inl check -> n = 3%nat).
Proof.
  intros reported. subst reported.
  destruct (getRepoCheckAccess session repoRef PermissionCommitCheckReport (world st))
    as [[repo|err] w1] eqn:Haccess.
  2: { exists 1%nat, "". unfold Report, bind, wrapping, outside. rewrite Haccess. simpl.
       repeat split; [lia..|discriminate]. }
  destruct (Validate in_) as [validated [errValidate|]] eqn:Hvalid.
  { exists 1%nat, "". unfold Report, bind, wrapping, outside, fail. rewrite Haccess. simpl.
    rewrite Hvalid. simpl. repeat split; [lia..|discriminate]. }
  destruct (ValidateCommitSHA commitSHA) eqn:Hsha.
  2: { exists 1%nat, "". unfold Report, bind, wrapping, outside, fail, ret.
       rewrite Haccess. simpl. rewrite Hvalid. simpl. rewrite Hsha. simpl.
       repeat split; [lia..|discriminate]. }
  rewrite (Report_after_the_checks _ _ _ _ _ _ _ _ _ Haccess Hvalid Hsha).
  assert (Huid : CheckUID validated = CheckUID in_).
  { destruct (CheckSpec.Validate_keeps_the_other_fields in_) as [Huid _].
    by rewrite Hvalid in Huid. }
  rewrite Huid.
  destruct (GetCommit _ w1) as [[err|] w2].
  { exists 2%nat, (GitUID repo). repeat split; [lia..|discriminate]. }
  exists 3%nat, (GitUID repo).
  destruct (Upsert _ w2) as [[stored [err|]] w3]; repeat split; lia.
Qed.

(** X9: when every check passes and the store accepts the record, [Report]
    returns the record as the store leaves it. The record it hands to the
    store has the same time, read from the clock after the commit was found,
    as its creation and update time, and carries the input as [Validate]
    left it, so with the sanitized payload. *)
Theorem Report_stores_the_validated_input (session : Session)
    (repoRef commitSHA : string) (in_ validated : ReportInput)
    (metadata : gmap string string) (st : State) (repo : Repository)
    (w1 w2 w3 : World) (stored : types.Check PrincipalInfo) :
  getRepoCheckAccess session repoRef PermissionCommitCheckReport (world st)
  = (inl repo, w1) ->
  Validate in_ = (validated, None) ->
  ValidateCommitSHA commitSHA = true ->
  GetCommit (mkGetCommitParams (GitUID repo) commitSHA) w1 = (None, w2) ->
  let record := recordOf session repo commitSHA validated metadata (UnixMilliNow w2) in
  Upsert record w2 = ((stored, None), w3) ->
  fst (Report session repoRef commitSHA in_ metadata st) = inl stored
  /\ world (snd (Report session repoRef commitSHA in_ metadata st)) = w3
  /\ types.Created _ record = types.Updated _ record
  /\ types.Payload _ record = Payload (fst (Validate in_))
  /\ types.Status _ record = Status in_.
Proof.
  intros Haccess Hvalid Hsha Hcommit record Hupsert.
  rewrite (Report_after_the_checks _ _ _ _ _ _ _ _ _ Haccess Hvalid Hsha).
  rewrite Hcommit. fold record. rewrite Hupsert. simpl.
  repeat split; [by rewrite Hvalid|].
  destruct (CheckSpec.Validate_keeps_the_other_fields in_) as (_ & Hstatus & _).
  by rewrite Hvalid in Hstatus.
Qed.

(** X10: when the commit is not found, or the lookup fails, [Report] returns
    the error of the lookup behind the text [failed to commit sha=<sha>],
    and the store is not written: the world is as the lookup left it. *)
Theorem Report_stops_at_a_missing_commit (session : Session)
    (repoRef commitSHA : string) (in_ validated : ReportInput)
    (metadata : gmap string string) (st : State) (repo : Repository)
    (w1 w2 : World) (err : error) :
  getRepoCheckAccess session repoRef PermissionCommitCheckReport (world st)
  = (inl repo, w1) ->
  Validate in_ = (validated, None) ->
  ValidateCommitSHA commitSHA = true ->
  GetCommit (mkGetCommitParams (GitUID repo) commitSHA) w1 = (Some err, w2) ->
  Report session repoRef commitSHA in_ metadata st
  = (inr (Wrapf ("failed to commit sha=" ++ commitSHA) err),
     mkState w2 (calls st ++ [CallRepoCheckAccess repoRef;
                              CallGetCommit (mkGetCommitParams (GitUID repo) commitSHA)])%list).
Proof.
  intros Haccess Hvalid Hsha Hcommit.
  rewrite (Report_after_the_checks _ _ _ _ _ _ _ _ _ Haccess Hvalid Hsha).
  by rewrite Hcommit.
Qed.

End Reporting.

(** A reporter, a world where access is granted and one commit is known,
    and a commit that is not known. *)
Definition reporter : Session := mkSession (mkPrincipal 11 "ci-bot").

Definition knownCommit : string := "4b825dc642cb6eb9a060e54bf8d69288fbee4904".
Definition unknownCommit : string := "0123456789abcdef0123456789abcdef01234567".

Definition oneCommit : StandIn.World := StandIn.mkWorld true [knownCommit] [] 1700000000123.

Definition fresh : @State StandIn.services := @mkState StandIn.services oneCommit [].

Definition reportedKnown : (types.Check Principal + error) * @State StandIn.services :=
  @Report StandIn.sanitizers StandIn.services reporter "space/repo" knownCommit
    acceptedReport ∅ fresh.

Definition storedRecord : types.Check Principal :=
  @recordOf StandIn.services reporter StandIn.theRepository knownCommit
    (fst (@Validate StandIn.sanitizers acceptedReport)) ∅ 1700000000123.

Lemma Report_stores_the_validated_input_witness :
  fst reportedKnown = inl storedRecord
  /\ world (snd reportedKnown)
     = StandIn.mkWorld true [knownCommit] [storedRecord] 1700000000123
  /\ types.Created _ storedRecord = types.Updated _ storedRecord
  /\ types.Payload _ storedRecord = Payload (fst (@Validate StandIn.sanitizers acceptedReport))
  /\ types.Status _ storedRecord = Status acceptedReport.
Proof.
  apply (@Report_stores_the_validated_input StandIn.sanitizers StandIn.services
           reporter "space/repo" knownCommit acceptedReport
           (fst (@Validate StandIn.sanitizers acceptedReport)) ∅ fresh
           StandIn.theRepository oneCommit oneCommit
           (StandIn.mkWorld true [knownCommit] [storedRecord] 1700000000123)
           storedRecord); reflexivity.
Defined.

Example Report_stores_the_lower_case_kind_and_the_status_as_given :
  types.Payload _ storedRecord = mkCheckPayload "external" "" [x7b; x7d]
  /\ types.Status _ storedRecord = "Success".
Proof. split; reflexivity. Qed.

Lemma Report_stops_at_a_missing_commit_witness :
  @Report StandIn.sanitizers StandIn.services reporter "space/repo" unknownCommit
    acceptedReport ∅ fresh
  = (inr (Wrapf ("failed to commit sha=" ++ unknownCommit) ErrNotFound),
     @mkState StandIn.services oneCommit
       [CallRepoCheckAccess "space/repo";
        CallGetCommit (mkGetCommitParams "git-uid-7" unknownCommit)]).
Proof.
  apply (@Report_stops_at_a_missing_commit StandIn.sanitizers StandIn.services
           reporter "space/repo" unknownCommit acceptedReport
           (fst (@Validate StandIn.sanitizers acceptedReport)) ∅ fresh
           StandIn.theRepository oneCommit oneCommit ErrNotFound); reflexivity.
Defined.

End CheckMore.

Module GiteaMore.
Import Gitea.

(** ** Reference names *)

Lemma list_ascii_of_string_app (a b : string) :
  list_ascii_of_string (a ++ b)
  = (list_ascii_of_string a ++ list_ascii_of_string b)%list.
Proof. induction a as [|c a IH]; simpl; [reflexivity|]. by rewrite IH. Qed.

Lemma list_ascii_of_string_inj (a b : string) :
  list_ascii_of_string a = list_ascii_of_string b -> a = b.
Proof.
  intros Heq. rewrite <- (string_of_list_ascii_of_string a),
    <- (string_of_list_ascii_of_string b). by rewrite Heq.
Qed.

(** A prefix and a suffix can be cancelled. *)
Lemma append_inv_head (prefix a b : string) :
  prefix ++ a = prefix ++ b -> a = b.
Proof. induction prefix as [|c prefix IH]; simpl; [done|]. intros [= Heq]. auto. Qed.

Lemma append_inv_tail (a b suffix : string) :
  a ++ suffix = b ++ suffix -> a = b.
Proof.
  intros Heq. apply list_ascii_of_string_inj.
  apply (f_equal list_ascii_of_string) in Heq.
  rewrite !list_ascii_of_string_app in Heq. by apply app_inv_tail in Heq.
Qed.

(** No string ends both in [/head] and in [/merge]. *)
Lemma head_is_not_merge (a b : string) :
  a ++ refPullReqHeadSuffix <> b ++ refPullReqMergeSuffix.
Proof.
  intros Heq. apply (f_equal list_ascii_of_string) in Heq.
  rewrite !list_ascii_of_string_app in Heq.
  change (list_ascii_of_string refPullReqHeadSuffix)
    with (list_ascii_of_string "/hea" ++ ["d"%char])%list in Heq.
  change (list_ascii_of_string refPullReqMergeSuffix)
    with (list_ascii_of_string "/merg" ++ ["e"%char])%list in Heq.
  rewrite !app_assoc in Heq. apply app_inj_tail in Heq as [_ Heq]. discriminate.
Qed.

(** The reference types that name a branch, a tag or a reference of a pull
    request. *)
Definition isTyped (refType : RefType) : bool :=
  match refType with
  | RefTypeBranch | RefTypeTag | RefTypePullReqHead | RefTypePullReqMerge => true
  | RefTypeRaw | RefTypeOther _ => false
  end.

(** X11: over branches, tags and the two references of a pull request,
    [getRef] is injective: two references with the same path have the same
    name and the same type. (A raw name can be the path of any of them.) *)
Theorem getRef_is_injective_on_typed_references (name1 name2 : string)
    (type1 type2 : RefType) :
  isTyped type1 = true -> isTyped type2 = true ->
  fst (getRef name1 type1) = fst (getRef name2 type2) ->
  name1 = name2 /\ type1 = type2.
Proof.
  destruct type1, type2; try discriminate; intros _ _; unfold getRef; cbn [fst];
    intros Heq; try (by simpl in Heq); apply append_inv_head in Heq.
  - by subst.
  - by subst.
  - by apply append_inv_tail in Heq as ->.
  - by apply head_is_not_merge in Heq.
  - symmetry in Heq. by apply head_is_not_merge in Heq.
  - by apply append_inv_tail in Heq as ->.
Qed.

Lemma getRef_is_injective_on_typed_references_witness :
  "7" = "7" /\ RefTypePullReqHead = RefTypePullReqHead.
Proof.
  apply (getRef_is_injective_on_typed_references "7" "7" RefTypePullReqHead
           RefTypePullReqHead); reflexivity.
Defined.

Example raw_names_alias_typed_ones :
  getRef "refs/heads/main" RefTypeRaw = getRef "main" RefTypeBranch.
Proof. reflexivity. Qed.

(** ** GetRef *)

Definition mainAtOnes : gmap string (gmap string string) :=
  {[ "/repos/a" := {[ "refs/heads/main" := "1111"; "refs/tags/v1" := "aaaa" ]} ]}.

(** What [strings.TrimSpace] leaves of a line that holds a well-formed SHA. *)
Lemma TrimSpace_line (value : string) :
  Sha.validSHARegex value = true -> Sha.TrimSpace (value ++ newline) = value.
Proof.
  intros Hv. pose proof Hv as [_ Hhex%ShaSpec.allChars_Forall]%andb_true_iff.
  pose proof (ShaMore.valid_not_empty _ Hv) as Hne.
  unfold Sha.TrimSpace. rewrite list_ascii_of_string_app.
  destruct (list_ascii_of_string value) as [|a l] eqn:Hl.
  { destruct value; [congruence|discriminate]. }
  apply Forall_cons in Hhex as Hhead. destruct Hhead as [Ha _].
  change ((a :: l) ++ list_ascii_of_string newline)%list
    with (a :: (l ++ list_ascii_of_string newline))%list.
  rewrite ShaSpec.trimFront_stops;
    [|by apply ShaSpec.asciiSpace_hex|apply ShaSpec.isHexLower_code in Ha; lia].
  change (a :: (l ++ list_ascii_of_string newline))%list
    with ((a :: l) ++ [ascii_of_nat 10])%list.
  rewrite rev_app_distr.
  change (rev [ascii_of_nat 10] ++ rev (a :: l))%list
    with (ascii_of_nat 10 :: rev (a :: l)).
  change (Sha.trimFront true (ascii_of_nat 10 :: rev (a :: l)))
    with (Sha.trimFront true (rev (a :: l))).
  rewrite ShaSpec.trimFront_hex by (by apply Forall_rev).
  rewrite rev_involutive, <- Hl. apply string_of_list_ascii_of_string.
Qed.

Section Reading.
Context `{Git}.

(** The contract of [git show-ref --verify -s -- <ref>] for a reference
    that does not exist: it exits with code 128 and says [not a valid ref],
    and changes nothing. *)
Hypothesis show_ref_fails : forall dir ref repos,
  refsOf repos dir !! ref = None ->
  exists out err e,
    RunStdString dir ["show-ref"; "--verify"; "-s"; "--"; ref] repos
    = ((out, err, Some e), repos)
    /\ exitCode e = Some 128
    /\ Contains (stderrText e) "not a valid ref" = true.

(** X14: for a reference that does not exist, [GetRef] returns
    [ErrNotFound], not the error of the command. *)
Theorem GetRef_of_a_missing_reference (repoPath refName : string)
    (refType : RefType) (path : string) (repos : Repos) :
  getRef refName refType = (path, None) ->
  refsOf repos repoPath !! path = None ->
  GetRef repoPath refName refType repos = (("", Some ErrNotFound), repos).
Proof.
  intros Hget Hnone. unfold GetRef. rewrite Hget.
  destruct (show_ref_fails repoPath path repos Hnone) as (out & err & e & -> & Hexit & Hmsg).
  unfold IsExitCode. rewrite Hexit, Hmsg. by rewrite bool_decide_eq_true_2.
Qed.

(** X15: [GetRef] returns the object id that [git show-ref] prints, without
    the line feed: when the command succeeds and prints a well-formed SHA
    and a line feed, [GetRef] returns that SHA and no error, and the
    repositories are as the command left them. *)
Theorem GetRef_returns_the_SHA_that_show_ref_prints (repoPath refName : string)
    (refType : RefType) (path value err : string) (repos repos' : Repos) :
  getRef refName refType = (path, None) ->
  RunStdString repoPath ["show-ref"; "--verify"; "-s"; "--"; path] repos
  = ((value ++ newline, err, None), repos') ->
  Sha.validSHARegex value = true ->
  GetRef repoPath refName refType repos = ((value, None), repos').
Proof.
  intros Hget Hrun Hv. unfold GetRef. rewrite Hget, Hrun.
  by rewrite TrimSpace_line.
Qed.

End Reading.

(** The stand-in git keeps the contract of [show-ref]. *)
Lemma Contains_append (before after substr : string) :
  Contains after substr = true -> Contains (before ++ after) substr = true.
Proof.
  intros Hin. induction before as [|c before IH]; simpl; [assumption|].
  rewrite IH. apply orb_true_r.
Qed.

Lemma gitToo_fails (dir ref : string) (repos : gmap string (gmap string string)) :
  StandIn.refsOf repos dir !! ref = None ->
  exists out err e,
    StandIn.RunStdStringToo dir ["show-ref"; "--verify"; "-s"; "--"; ref] repos
    = ((out, err, Some e), repos)
    /\ exitCode e = Some 128
    /\ Contains (stderrText e) "not a valid ref" = true.
Proof.
  intros Hcur. eexists "", "", _. unfold StandIn.RunStdStringToo.
  rewrite bool_decide_eq_true_2 by reflexivity. rewrite Hcur.
  split; [reflexivity|]. split; [reflexivity|]. simpl stderrText.
  apply (Contains_append "fatal: '"). apply Contains_append. reflexivity.
Qed.

Lemma GetRef_of_a_missing_reference_witness :
  @GetRef StandIn.gitToo "/repos/a" "next" RefTypeBranch mainAtOnes
  = (("", Some ErrNotFound), mainAtOnes).
Proof.
  apply (@GetRef_of_a_missing_reference StandIn.gitToo gitToo_fails "/repos/a" "next"
           RefTypeBranch "refs/heads/next" mainAtOnes); reflexivity.
Defined.

Definition aCommit : string := "4b825dc642cb6eb9a060e54bf8d69288fbee4904".

Definition tagAtCommit : gmap string (gmap string string) :=
  {[ "/repos/a" := {[ "refs/tags/v1" := aCommit ]} ]}.

Lemma GetRef_returns_the_SHA_that_show_ref_prints_witness :
  @GetRef StandIn.gitToo "/repos/a" "v1" RefTypeTag tagAtCommit
  = ((aCommit, None), tagAtCommit).
Proof.
  apply (@GetRef_returns_the_SHA_that_show_ref_prints StandIn.gitToo "/repos/a" "v1"
           RefTypeTag "refs/tags/v1" aCommit "" tagAtCommit tagAtCommit);
    reflexivity.
Defined.

Example GetRef_trims_the_line :
  @GetRef StandIn.gitToo "/repos/a" "v1" RefTypeTag mainAtOnes = (("aaaa", None), mainAtOnes).
Proof. vm_compute. reflexivity. Qed.

(** ** The walk *)

Section Walk.
Context `{Helpers} {S : Type}.

Abbreviation handled := GiteaSpec.handled.
Abbreviation instructed := GiteaSpec.instructed.
Abbreviation entries := GiteaSpec.entries.

Ltac tidy :=
  rewrite ?GiteaSpec.instructed_app, ?GiteaSpec.handled_app; simpl;
  rewrite ?take_0, ?app_nil_r, <- ?app_assoc; simpl.

(** An instructor that decides on the record alone. *)
Definition deciding (decide : WalkReferencesEntry -> WalkInstruction)
    : WalkReferencesInstructor S :=
  fun ref st => ((decide ref, None), st).

(** The entries before the first one the instructor stops at, and among
    entries the ones it does not skip. *)
Fixpoint untilStop (decide : WalkReferencesEntry -> WalkInstruction)
    (l : list WalkReferencesEntry) : list WalkReferencesEntry :=
  match l with
  | [] => []
  | ref :: rest =>
      if bool_decide (decide ref = WalkInstructionStop) then []
      else ref :: untilStop decide rest
  end.

Definition notSkipped (decide : WalkReferencesEntry -> WalkInstruction)
    (l : list WalkReferencesEntry) : list WalkReferencesEntry :=
  List.filter (fun ref => negb (bool_decide (decide ref = WalkInstructionSkip))) l.

(** Every record maps to an entry. *)
Definition allMap (records : list RawRef) : Prop :=
  Forall (fun rawRef => snd (mapGiteaRawRef rawRef) = None) records.

Lemma entries_cons (rawRef : RawRef) (rest : list RawRef) :
  entries (rawRef :: rest) = fst (mapGiteaRawRef rawRef) :: entries rest.
Proof. reflexivity. Qed.

Lemma distance_left (m i : Z) :
  i < m -> Z.to_nat (m - i) = Datatypes.S (Z.to_nat (m - (i + 1))).
Proof. lia. Qed.

(** The calls of a walk, whatever the callbacks do: the instructor is asked
    about the first records of the stream, in their order and without a gap,
    and the handler is called on some of these, in the same order. *)
Lemma walkLoop_calls (handler : WalkReferencesHandler S)
    (opts : WalkReferencesOptions S) (ending met : option error)
    (records : list RawRef) :
  forall (i : Z) (trace : list WalkEvent) (st : S),
    exists (n : nat) (some : list WalkReferencesEntry),
      instructed (events (walkLoop handler opts ending met i records trace st))
      = (instructed trace ++ take n (entries records))%list
      /\ handled (events (walkLoop handler opts ending met i records trace st))
         = (handled trace ++ some)%list
      /\ sublist some (take n (entries records)).
Proof.
  induction records as [|rawRef rest IH]; intros i trace st; cbn [walkLoop];
    destruct (i <? MaxWalkDistance opts); cbn [negb];
    rewrite ?GiteaSpec.afterLoop_events;
    try (exists 0%nat, []; rewrite take_0, !app_nil_r; by repeat split).
  rewrite entries_cons.
  destruct (mapGiteaRawRef rawRef) as [ref [err|]]; cbn [events fst];
    [exists 0%nat, []; rewrite take_0, !app_nil_r; by repeat split|].
  destruct (Instructor opts) as [instructor|]; cbn [events];
    [|exists 0%nat, []; rewrite take_0, !app_nil_r; by repeat split].
  destruct (instructor ref st) as [[instruction [err|]] st1]; cbn [events].
  { exists 1%nat, []. tidy. repeat split. apply sublist_nil_l. }
  repeat case_bool_decide.
  - destruct (IH (int32 (i + 1)) (trace ++ [InstructorCalled ref])%list st1)
      as (n & some & Hi & Hh & Hsub).
    exists (Datatypes.S n), some. rewrite Hi, Hh. tidy.
    repeat split. by apply sublist_cons.
  - exists 1%nat, []. rewrite GiteaSpec.afterLoop_events. tidy.
    repeat split. apply sublist_nil_l.
  - destruct (handler ref st1) as [[err|] st2]; cbn [events].
    + exists 1%nat, [ref]. tidy. by repeat split.
    + destruct (IH (int32 (i + 1))
                  ((trace ++ [InstructorCalled ref]) ++ [HandlerCalled ref])%list st2)
        as (n & some & Hi & Hh & Hsub).
      exists (Datatypes.S n), (ref :: some). rewrite Hi, Hh. tidy.
      repeat split. by apply sublist_skip.
Qed.

(** X16: in every walk the instructor is asked about the records in the
    order of the stream and without a gap, from the first one on, and the
    handler is called only on records the instructor was asked about, in the
    same order. *)
Theorem walk_calls_follow_the_stream (parser : Parser)
    (handler : WalkReferencesHandler S) (opts : WalkReferencesOptions S) (st : S) :
  let walked := walkGiteaReferenceParser parser handler opts st in
  (exists n, instructed (events walked) = take n (entries (pending parser)))
  /\ sublist (handled (events walked)) (instructed (events walked)).
Proof.
  intros walked. subst walked. unfold walkGiteaReferenceParser.
  destruct (walkLoop_calls handler opts (ending parser) (met parser) (pending parser)
              0 [] st) as (n & some & -> & -> & Hsub).
  simpl. eauto.
Qed.

(** The handler calls of a walk whose instructor decides on the record
    alone and whose handler does not fail. *)
Lemma walkLoop_deciding (decide : WalkReferencesEntry -> WalkInstruction)
    (handler : WalkReferencesHandler S) (opts : WalkReferencesOptions S)
    (ending met : option error) (records : list RawRef) :
  Instructor opts = Some (deciding decide) ->
  (forall ref st, fst (handler ref st) = None) ->
  MaxWalkDistance opts <= MaxInt32 ->
  allMap records ->
  forall (i : Z) (trace : list WalkEvent) (st : S),
    0 <= i ->
    handled (events (walkLoop handler opts ending met i records trace st))
    = (handled trace
       ++ notSkipped decide
            (untilStop decide (take (Z.to_nat (MaxWalkDistance opts - i))
                                 (entries records))))%list.
Proof.
  intros Hinstr Hhandler Hmax. unfold MaxInt32 in Hmax.
  induction 1 as [|rawRef rest Hmap _ IH]; intros i trace st Hi; cbn [walkLoop];
    destruct (Z.ltb_spec i (MaxWalkDistance opts)) as [Hlt|Hge]; cbn [negb];
    rewrite ?GiteaSpec.afterLoop_events.
  - unfold GiteaSpec.entries. simpl. by rewrite take_nil, app_nil_r.
  - unfold GiteaSpec.entries. simpl. by rewrite take_nil, app_nil_r.
  - rewrite (distance_left _ _ Hlt), entries_cons, Hinstr.
    destruct (mapGiteaRawRef rawRef) as [ref err]. simpl in Hmap. subst err.
    unfold deciding at 1. cbv beta iota zeta. rewrite GiteaSpec.int32_small by lia.
    cbn [fst take untilStop].
    destruct (decide ref) eqn:Hdecide; simpl bool_decide; cbv iota.
    + specialize (Hhandler ref st). destruct (handler ref st) as [err st2].
      simpl in Hhandler. subst err. rewrite IH by lia.
      unfold notSkipped at 2. cbn [List.filter]. rewrite Hdecide. simpl. tidy.
      reflexivity.
    + rewrite IH by lia. unfold notSkipped at 2. cbn [List.filter].
      rewrite Hdecide. simpl. tidy. reflexivity.
    + rewrite GiteaSpec.afterLoop_events. tidy. reflexivity.
  - replace (Z.to_nat (MaxWalkDistance opts - i)) with 0%nat by lia.
    by rewrite take_0, app_nil_r.
Qed.

(** X17: a walk is a filter over a prefix of the stream. When the instructor
    decides on the record alone and neither the mapping of a record nor the
    handler fails, the handler is called on exactly the records that the
    instructor does not skip, among the first [MaxWalkDistance] records and
    before the first one it stops at. *)
Theorem walk_handles_the_records_not_skipped_before_the_stop (parser : Parser)
    (decide : WalkReferencesEntry -> WalkInstruction)
    (handler : WalkReferencesHandler S) (opts : WalkReferencesOptions S) (st : S) :
  Instructor opts = Some (deciding decide) ->
  (forall ref st, fst (handler ref st) = None) ->
  MaxWalkDistance opts <= MaxInt32 ->
  allMap (pending parser) ->
  handled (events (walkGiteaReferenceParser parser handler opts st))
  = notSkipped decide
      (untilStop decide (take (Z.to_nat (MaxWalkDistance opts))
                           (entries (pending parser)))).
Proof.
  intros Hinstr Hhandler Hmax Hmap. unfold walkGiteaReferenceParser.
  rewrite (walkLoop_deciding decide) by (assumption || lia).
  by rewrite Z.sub_0_r.
Qed.

(** A walk whose callbacks do not fail returns nil when the distance is
    reached, whatever the stream holds after that. *)
Lemma walkLoop_capped (instructor : WalkReferencesInstructor S)
    (handler : WalkReferencesHandler S) (opts : WalkReferencesOptions S)
    (ending : option error) (records : list RawRef) :
  Instructor opts = Some instructor ->
  (forall ref st, snd (fst (instructor ref st)) = None) ->
  (forall ref st, fst (handler ref st) = None) ->
  MaxWalkDistance opts <= MaxInt32 ->
  allMap records ->
  forall (i : Z) (trace : list WalkEvent) (st : S),
    0 <= i ->
    MaxWalkDistance opts - i <= Z.of_nat (length records) ->
    returned (walkLoop handler opts ending None i records trace st) = Returned None.
Proof.
  intros Hinstr Hinstructor Hhandler Hmax. unfold MaxInt32 in Hmax.
  induction 1 as [|rawRef rest Hmap _ IH]; intros i trace st Hi Hcap; cbn [walkLoop];
    destruct (Z.ltb_spec i (MaxWalkDistance opts)) as [Hlt|Hge]; cbn [negb];
    try (by apply GiteaSpec.afterLoop_returned).
  { simpl in Hcap. lia. }
  rewrite Hinstr. destruct (mapGiteaRawRef rawRef) as [ref err]. simpl in Hmap. subst err.
  specialize (Hinstructor ref st).
  destruct (instructor ref st) as [[instruction err] st1]. simpl in Hinstructor. subst err.
  rewrite GiteaSpec.int32_small by lia. simpl length in Hcap.
  repeat case_bool_decide.
  - apply IH; lia.
  - by apply GiteaSpec.afterLoop_returned.
  - specialize (Hhandler ref st1). destruct (handler ref st1) as [err st2].
    simpl in Hhandler. subst err. apply IH; lia.
Qed.

(** X18: a walk that stops because the distance is reached returns nil even
    if the stream ends in an error: when the stream holds at least
    [MaxWalkDistance] records and no callback fails, the error that ends the
    stream (a malformed record further on) is not reported. *)
Theorem walk_capped_by_the_distance_returns_nil (parser : Parser)
    (instructor : WalkReferencesInstructor S) (handler : WalkReferencesHandler S)
    (opts : WalkReferencesOptions S) (st : S) :
  Instructor opts = Some instructor ->
  (forall ref st, snd (fst (instructor ref st)) = None) ->
  (forall ref st, fst (handler ref st) = None) ->
  allMap (pending parser) ->
  met parser = None ->
  MaxWalkDistance opts <= MaxInt32 ->
  MaxWalkDistance opts <= Z.of_nat (length (pending parser)) ->
  returned (walkGiteaReferenceParser parser handler opts st) = Returned None.
Proof.
  intros Hinstr Hinstructor Hhandler Hmap Hmet Hmax Hcap.
  unfold walkGiteaReferenceParser. rewrite Hmet.
  apply (walkLoop_capped instructor); (assumption || lia).
Qed.

(** A walk that reads the stream to its end returns the parse error that
    ends the stream, if there is one. *)
Lemma walkLoop_exhausts (instructor : WalkReferencesInstructor S)
    (handler : WalkReferencesHandler S) (opts : WalkReferencesOptions S)
    (ending met : option error) (records : list RawRef) :
  Instructor opts = Some instructor ->
  (forall ref st, snd (fst (instructor ref st)) = None
                  /\ fst (fst (instructor ref st)) <> WalkInstructionStop) ->
  (forall ref st, fst (handler ref st) = None) ->
  MaxWalkDistance opts <= MaxInt32 ->
  allMap records ->
  forall (i : Z) (trace : list WalkEvent) (st : S),
    0 <= i ->
    Z.of_nat (length records) < MaxWalkDistance opts - i ->
    returned (walkLoop handler opts ending met i records trace st)
    = Returned ((fun err => processGiteaErrorf err "failed to parse reference walk output")
                  <$> ending).
Proof.
  intros Hinstr Hinstructor Hhandler Hmax. unfold MaxInt32 in Hmax.
  induction 1 as [|rawRef rest Hmap _ IH]; intros i trace st Hi Hcap; cbn [walkLoop];
    (destruct (Z.ltb_spec i (MaxWalkDistance opts)) as [Hlt|Hge]; [|simpl in Hcap; lia]);
    cbn [negb].
  { unfold afterLoop, Next, Err. simpl. by destruct ending. }
  rewrite Hinstr. destruct (mapGiteaRawRef rawRef) as [ref err]. simpl in Hmap. subst err.
  destruct (Hinstructor ref st) as [Herr Hstop].
  destruct (instructor ref st) as [[instruction err] st1]. simpl in Herr, Hstop. subst err.
  rewrite GiteaSpec.int32_small by lia. simpl length in Hcap.
  repeat case_bool_decide; try congruence.
  - apply IH; lia.
  - specialize (Hhandler ref st1). destruct (handler ref st1) as [err st2].
    simpl in Hhandler. subst err. apply IH; lia.
Qed.

(** X19: a walk that reads the stream to its end reports the parse error
    that ends it. When the stream holds fewer records than
    [MaxWalkDistance], the instructor never stops and no callback fails, the
    walk returns the parse error of the malformed record that ends the
    stream, passed through [processGiteaErrorf], and nil if the stream ends
    without one, as it does at the end of the output and when the git
    command fails. *)
Theorem walk_to_the_end_returns_the_parse_error_of_the_stream (parser : Parser)
    (instructor : WalkReferencesInstructor S) (handler : WalkReferencesHandler S)
    (opts : WalkReferencesOptions S) (st : S) :
  Instructor opts = Some instructor ->
  (forall ref st, snd (fst (instructor ref st)) = None
                  /\ fst (fst (instructor ref st)) <> WalkInstructionStop) ->
  (forall ref st, fst (handler ref st) = None) ->
  allMap (pending parser) ->
  MaxWalkDistance opts <= MaxInt32 ->
  Z.of_nat (length (pending parser)) < MaxWalkDistance opts ->
  returned (walkGiteaReferenceParser parser handler opts st)
  = Returned ((fun err => processGiteaErrorf err "failed to parse reference walk output")
                <$> ending parser).
Proof.
  intros Hinstr Hinstructor Hhandler Hmap Hmax Hcap.
  unfold walkGiteaReferenceParser.
  apply (walkLoop_exhausts instructor); (assumption || lia).
Qed.

(** The walk up to the first record the handler fails on. *)
Lemma walkLoop_first_failure (decide : WalkReferencesEntry -> WalkInstruction)
    (fails : WalkReferencesEntry -> option error)
    (handler : WalkReferencesHandler S) (opts : WalkReferencesOptions S)
    (ending met : option error) (records : list RawRef) :
  Instructor opts = Some (deciding decide) ->
  (forall ref st, fst (handler ref st) = fails ref) ->
  MaxWalkDistance opts <= MaxInt32 ->
  allMap records ->
  forall (i : Z) (trace : list WalkEvent) (st : S)
         (before after : list WalkReferencesEntry) (bad : WalkReferencesEntry)
         (err : error),
    0 <= i ->
    notSkipped decide
      (untilStop decide (take (Z.to_nat (MaxWalkDistance opts - i)) (entries records)))
    = (before ++ bad :: after)%list ->
    Forall (fun ref => fails ref = None) before ->
    fails bad = Some err ->
    returned (walkLoop handler opts ending met i records trace st)
    = Returned (Some (Wrapf "error handling reference" err))
    /\ handled (events (walkLoop handler opts ending met i records trace st))
       = (handled trace ++ before ++ [bad])%list.
Proof.
  intros Hinstr Hhandler Hmax. unfold MaxInt32 in Hmax.
  induction 1 as [|rawRef rest Hmap _ IH];
    intros i trace st before after bad err Hi Hvisited Hbefore Hbad.
  { unfold GiteaSpec.entries in Hvisited. simpl in Hvisited.
    rewrite take_nil in Hvisited. by destruct before. }
  cbn [walkLoop].
  destruct (Z.ltb_spec i (MaxWalkDistance opts)) as [Hlt|Hge]; cbn [negb].
  2: { replace (Z.to_nat (MaxWalkDistance opts - i)) with 0%nat in Hvisited by lia.
       rewrite take_0 in Hvisited. by destruct before. }
  rewrite (distance_left _ _ Hlt), entries_cons in Hvisited. rewrite Hinstr.
  destruct (mapGiteaRawRef rawRef) as [ref mapErr]. simpl in Hmap. subst mapErr.
  unfold deciding. cbv beta iota zeta. rewrite GiteaSpec.int32_small by lia.
  cbn [fst take untilStop] in Hvisited.
  destruct (decide ref) eqn:Hdecide; simpl bool_decide in *; cbv iota in *.
  - unfold notSkipped in Hvisited. cbn [List.filter] in Hvisited.
    rewrite Hdecide in Hvisited. simpl in Hvisited.
    pose proof (Hhandler ref st) as Hfails.
    destruct (handler ref st) as [handlerErr st2]. simpl in Hfails. subst handlerErr.
    destruct before as [|first before].
    + injection Hvisited as -> _. rewrite Hbad. simpl. tidy. by split.
    + injection Hvisited as -> Hrest. apply Forall_cons in Hbefore as [-> Hbefore].
      destruct (IH (i + 1)
                  ((trace ++ [InstructorCalled first]) ++ [HandlerCalled first])%list
                  st2 before after bad err) as [-> ->]; [lia|exact Hrest|done..|].
      tidy. by split.
  - unfold notSkipped in Hvisited. cbn [List.filter] in Hvisited.
    rewrite Hdecide in Hvisited. simpl in Hvisited.
    destruct (IH (i + 1) (trace ++ [InstructorCalled ref])%list st
                before after bad err) as [-> ->]; [lia|exact Hvisited|done..|].
    tidy. by split.
  - by destruct before.
Qed.

(** X20: a walk ends at the first failure of the handler. With an instructor
    that decides on the record alone and a handler whose failure depends on
    the record alone, let the records to visit be those among the first
    [MaxWalkDistance] and before the first stop that are not skipped: if
    the handler fails on one of them and on none before it, the walk returns
    that error, wrapped as an error of handling the reference, and the
    handler has been called on the records up to that one and on none after
    it. *)
Theorem walk_ends_at_the_first_failure_of_the_handler (parser : Parser)
    (decide : WalkReferencesEntry -> WalkInstruction)
    (fails : WalkReferencesEntry -> option error)
    (handler : WalkReferencesHandler S) (opts : WalkReferencesOptions S) (st : S)
    (before after : list WalkReferencesEntry) (bad : WalkReferencesEntry)
    (err : error) :
  Instructor opts = Some (deciding decide) ->
  (forall ref st, fst (handler ref st) = fails ref) ->
  MaxWalkDistance opts <= MaxInt32 ->
  allMap (pending parser) ->
  notSkipped decide
    (untilStop decide (take (Z.to_nat (MaxWalkDistance opts)) (entries (pending parser))))
  = (before ++ bad :: after)%list ->
  Forall (fun ref => fails ref = None) before ->
  fails bad = Some err ->
  returned (walkGiteaReferenceParser parser handler opts st)
  = Returned (Some (Wrapf "error handling reference" err))
  /\ handled (events (walkGiteaReferenceParser parser handler opts st))
     = (before ++ [bad])%list.
Proof.
  intros Hinstr Hhandler Hmax Hmap Hvisited Hbefore Hbad.
  unfold walkGiteaReferenceParser.
  apply (walkLoop_first_failure decide fails handler opts (ending parser) (met parser)
           (pending parser) Hinstr Hhandler Hmax Hmap 0 [] st before after bad err);
    [lia| by rewrite Z.sub_0_r |done..].
Qed.

Lemma untilStop_handle (l : list WalkReferencesEntry) :
  untilStop (fun _ => WalkInstructionHandle) l = l.
Proof. induction l as [|ref l IH]; simpl; by rewrite ?IH. Qed.

Lemma notSkipped_handle (l : list WalkReferencesEntry) :
  notSkipped (fun _ => WalkInstructionHandle) l = l.
Proof. induction l as [|ref l IH]; simpl; by rewrite ?IH. Qed.

End Walk.

Section Options.
Context `{Helpers} `{Git} {S : Type}.

Lemma options_eq (a b : WalkReferencesOptions S) :
  Patterns a = Patterns b -> Fields a = Fields b -> Instructor a = Instructor b ->
  Sort a = Sort b -> Order a = Order b -> MaxWalkDistance a = MaxWalkDistance b ->
  a = b.
Proof. destruct a, b. simpl. congruence. Qed.

(** Options that have been back-filled have every field set: a second
    back-fill finds nothing to do. *)
Lemma backfill_backfill (o : WalkReferencesOptions S) :
  backfill (backfill o) = backfill o.
Proof.
  destruct (GiteaSpec.backfill_fields (backfill o))
    as (Hinstr2 & Hfields2 & Hdist2 & Hpatterns2 & Hsort2 & Horder2).
  destruct (GiteaSpec.backfill_fields o)
    as (Hinstr & Hfields & Hdist & Hpatterns & Hsort & Horder).
  apply options_eq.
  - rewrite Hpatterns2, Hpatterns. reflexivity.
  - rewrite Hfields2.
    destruct (decide (length (Fields (backfill o)) = 0%nat)) as [Hempty|Hset];
      [|by rewrite (bool_decide_eq_false_2 _ Hset)].
    rewrite Hfields in Hempty.
    destruct (decide (length (Fields o) = 0%nat)) as [Hnone|Hsome].
    + by rewrite (bool_decide_eq_true_2 _ Hnone) in Hempty.
    + by rewrite (bool_decide_eq_false_2 _ Hsome) in Hempty.
  - rewrite Hinstr2, Hinstr. reflexivity.
  - rewrite Hsort2.
    destruct (decide (Sort (backfill o) = "")) as [Hempty|Hset];
      [|by rewrite (bool_decide_eq_false_2 _ Hset)].
    rewrite (bool_decide_eq_true_2 _ Hempty). rewrite Hsort in Hempty |- *.
    destruct (decide (Sort o = "")) as [Hnone|Hsome].
    + by rewrite (bool_decide_eq_true_2 _ Hnone).
    + by rewrite (bool_decide_eq_false_2 _ Hsome) in Hempty.
  - exact Horder2.
  - rewrite Hdist2. destruct (Z.leb_spec (MaxWalkDistance (backfill o)) 0) as [Hle|];
      [|reflexivity].
    rewrite Hdist in Hle. unfold MaxInt32 in Hle.
    destruct (Z.leb_spec (MaxWalkDistance o) 0); lia.
Qed.

(** X21: the back-fill of the options happens once. A second call of
    [WalkReferences] with the same options pointer, whatever the handler and
    the repositories, leaves the options as the first call left them, and on
    the same repositories, handler and state it repeats the walk of the
    first call. *)
Theorem WalkReferences_backfills_once (repoPath repoPath' : string)
    (handler handler' : WalkReferencesHandler S) (opts : nat)
    (heap : gmap nat (WalkReferencesOptions S)) (repos repos' : Repos) (st st' : S) :
  let first := WalkReferences repoPath handler opts heap repos st in
  fst (WalkReferences repoPath' handler' opts (fst first) repos' st') = fst first
  /\ snd (WalkReferences repoPath handler opts (fst first) repos st) = snd first.
Proof.
  intros first. subst first. unfold WalkReferences.
  destruct (heap !! opts) as [o|] eqn:Hopts; cbn [fst snd].
  - rewrite lookup_insert_eq, backfill_backfill. cbn [fst snd].
    by rewrite insert_insert_eq.
  - by rewrite Hopts.
Qed.

(** X22: by default every reference is handled. When the caller leaves the
    instructor unset and gives no positive distance, and neither the mapping
    of a record nor the handler fails, [WalkReferences] calls the handler on
    every record of the stream of for-each-ref, in the order of the stream,
    up to [MaxInt32] records. *)
Theorem WalkReferences_by_default_handles_every_record (repoPath : string)
    (handler : WalkReferencesHandler S) (opts : nat)
    (heap : gmap nat (WalkReferencesOptions S)) (repos : Repos) (st : S)
    (o : WalkReferencesOptions S) :
  let parser :=
    RunForEachRef repoPath (Fields (backfill o)) (forEachRefArgs (backfill o)) repos in
  heap !! opts = Some o ->
  Instructor o = None ->
  MaxWalkDistance o <= 0 ->
  (forall ref st, fst (handler ref st) = None) ->
  allMap (pending parser) ->
  GiteaSpec.handled (events (snd (WalkReferences repoPath handler opts heap repos st)))
  = take (Z.to_nat MaxInt32) (GiteaSpec.entries (pending parser)).
Proof.
  intros parser Hopts Hinstr Hdist Hhandler Hmap. subst parser.
  unfold WalkReferences. rewrite Hopts. cbn [snd].
  destruct (GiteaSpec.backfill_fields o) as (Hinstr' & _ & Hdist' & _).
  rewrite Hinstr in Hinstr'. simpl in Hinstr'.
  destruct (Z.leb_spec (MaxWalkDistance o) 0) as [_|]; [|lia].
  unfold walkGiteaReferenceParser.
  rewrite (walkLoop_deciding (fun _ => WalkInstructionHandle))
    by (try assumption; rewrite ?Hdist'; lia).
  rewrite Hdist', Z.sub_0_r, untilStop_handle, notSkipped_handle. reflexivity.
Qed.

End Options.

(** *** On the stand-in backend *)

(** An instructor that skips the branch b, a handler that fails on it. *)
Definition skipB : WalkReferencesEntry -> WalkInstruction :=
  fun ref =>
    if bool_decide (ref !! "refname" = Some "refs/heads/b") then WalkInstructionSkip
    else WalkInstructionHandle.

Definition failsOnB : WalkReferencesEntry -> option error :=
  fun ref =>
    if bool_decide (ref !! "refname" = Some "refs/heads/b")
    then Some (ForeignError "handler")
    else None.

Definition failingOnB : WalkReferencesHandler nat :=
  fun ref count => (failsOnB ref, Datatypes.S count).

(** A stream of three records with a malformed record behind them. *)
Definition brokenStream : Parser :=
  mkParser GiteaSpec.threeRecords (Some (ForeignError "malformed reference record")) None.

Lemma walk_handles_the_records_not_skipped_before_the_stop_witness :
  GiteaSpec.handled
    (events (@walkGiteaReferenceParser StandIn.helpers nat
               (mkParser GiteaSpec.threeRecords None None) GiteaSpec.countingHandler
               (GiteaSpec.optionsWith (Some (deciding skipB)) 3) 0%nat))
  = notSkipped skipB
      (untilStop skipB
         (take (Z.to_nat 3) (@GiteaSpec.entries StandIn.helpers GiteaSpec.threeRecords))).
Proof.
  apply (@walk_handles_the_records_not_skipped_before_the_stop StandIn.helpers nat
           (mkParser GiteaSpec.threeRecords None None) skipB GiteaSpec.countingHandler
           (GiteaSpec.optionsWith (Some (deciding skipB)) 3) 0%nat).
  - reflexivity.
  - intros ref st. reflexivity.
  - unfold MaxInt32. simpl. lia.
  - repeat constructor.
Defined.

Lemma walk_capped_by_the_distance_returns_nil_witness :
  returned (@walkGiteaReferenceParser StandIn.helpers nat brokenStream
              GiteaSpec.countingHandler
              (GiteaSpec.optionsWith (Some DefaultInstructor) 3) 0%nat)
  = Returned None.
Proof.
  apply (@walk_capped_by_the_distance_returns_nil StandIn.helpers nat brokenStream
           DefaultInstructor GiteaSpec.countingHandler
           (GiteaSpec.optionsWith (Some DefaultInstructor) 3) 0%nat).
  - reflexivity.
  - intros ref st. reflexivity.
  - intros ref st. reflexivity.
  - repeat constructor.
  - reflexivity.
  - unfold MaxInt32. simpl. lia.
  - simpl. lia.
Defined.

Lemma walk_to_the_end_returns_the_parse_error_of_the_stream_witness :
  returned (@walkGiteaReferenceParser StandIn.helpers nat brokenStream
              GiteaSpec.countingHandler
              (GiteaSpec.optionsWith (Some DefaultInstructor) 4) 0%nat)
  = Returned (Some (Wrapf "failed to parse reference walk output"
                      (ForeignError "malformed reference record"))).
Proof.
  apply (@walk_to_the_end_returns_the_parse_error_of_the_stream StandIn.helpers nat brokenStream
           DefaultInstructor GiteaSpec.countingHandler
           (GiteaSpec.optionsWith (Some DefaultInstructor) 4) 0%nat).
  - reflexivity.
  - intros ref st. split; [reflexivity|discriminate].
  - intros ref st. reflexivity.
  - repeat constructor.
  - unfold MaxInt32. simpl. lia.
  - simpl. lia.
Defined.

Lemma walk_ends_at_the_first_failure_of_the_handler_witness :
  returned (@walkGiteaReferenceParser StandIn.helpers nat
              (mkParser GiteaSpec.threeRecords None None) failingOnB
              (GiteaSpec.optionsWith (Some DefaultInstructor) 3) 0%nat)
  = Returned (Some (Wrapf "error handling reference" (ForeignError "handler")))
  /\ GiteaSpec.handled
       (events (@walkGiteaReferenceParser StandIn.helpers nat
                  (mkParser GiteaSpec.threeRecords None None) failingOnB
                  (GiteaSpec.optionsWith (Some DefaultInstructor) 3) 0%nat))
     = ([StandIn.recordOf ("refs/heads/a", "1111")]
        ++ [StandIn.recordOf ("refs/heads/b", "2222")])%list.
Proof.
  apply (@walk_ends_at_the_first_failure_of_the_handler StandIn.helpers nat
           (mkParser GiteaSpec.threeRecords None None)
           (fun _ => WalkInstructionHandle) failsOnB failingOnB
           (GiteaSpec.optionsWith (Some DefaultInstructor) 3) 0%nat
           [StandIn.recordOf ("refs/heads/a", "1111")]
           [StandIn.recordOf ("refs/heads/c", "3333")]
           (StandIn.recordOf ("refs/heads/b", "2222"))
           (ForeignError "handler")).
  - reflexivity.
  - intros ref st. reflexivity.
  - unfold MaxInt32. simpl. lia.
  - repeat constructor.
  - vm_compute. reflexivity.
  - repeat constructor.
  - vm_compute. reflexivity.
Defined.

Lemma WalkReferences_by_default_handles_every_record_witness :
  GiteaSpec.handled
    (events (snd (@WalkReferences StandIn.helpers StandIn.git nat "/repos/a"
                    GiteaSpec.countingHandler 0%nat
                    {[ 0%nat := GiteaSpec.unsetOptions ]} GiteaSpec.threeBranches 0%nat)))
  = take (Z.to_nat MaxInt32)
      (@GiteaSpec.entries StandIn.helpers
         (pending (@RunForEachRef StandIn.git "/repos/a"
                     (Fields (@backfill StandIn.helpers nat GiteaSpec.unsetOptions))
                     (@forEachRefArgs StandIn.helpers nat
                        (@backfill StandIn.helpers nat GiteaSpec.unsetOptions))
                     GiteaSpec.threeBranches))).
Proof.
  apply (@WalkReferences_by_default_handles_every_record StandIn.helpers StandIn.git nat
           "/repos/a" GiteaSpec.countingHandler 0%nat
           {[ 0%nat := GiteaSpec.unsetOptions ]} GiteaSpec.threeBranches 0%nat
           GiteaSpec.unsetOptions).
  - reflexivity.
  - reflexivity.
  - simpl. lia.
  - intros ref st. reflexivity.
  - apply Forall_forall. intros rawRef _. reflexivity.
Defined.

Example WalkReferences_by_default_handles_the_three_branches :
  callerState (snd (@WalkReferences StandIn.helpers StandIn.git nat "/repos/a"
                      GiteaSpec.countingHandler 0%nat
                      {[ 0%nat := GiteaSpec.unsetOptions ]} GiteaSpec.threeBranches 0%nat))
  = 3%nat.
Proof. vm_compute. reflexivity. Qed.

End GiteaMore.
